(** * pad4amd: gradient-guided evasion attacks in feature space

    A shallow embedding of the attack routines of
    [core/attack/bca.py], [core/attack/orthogonal_stepwise_max.py] and of
    [tools/utils.py:rand_x].

    Conventions.
    - A tensor entry is a rational ([Q]): arithmetic is exact, so rounding,
      infinities and NaN of IEEE doubles are outside the model.
    - The penalty factor [lambda_] of the attacks is a Python [float]: a
      double, held as the rational it denotes.  Its product with [base] is
      rounded to the nearest double, ties to even ([Float.mul]); the
      infinite double is held as [2 ^ 1024], which lies above every finite
      double; NaN is outside the model.
    - A sample is a flat feature vector ([row]); a batch is a list of
      samples.  The source flattens every sample with
      [reshape(x.shape[0], -1)] before it picks a coordinate, so a flat row
      loses nothing.
    - Python exceptions are values of [exn]; effectful code lives in the
      monad [M], which threads the log of oracle queries. *)

From Stdlib Require Import String.
From Stdlib Require Import QArith Qabs ZArith List Bool Lia Lqa PeanoNat.
From Stdlib Require Import Qpower Qround.
Import ListNotations.

Open Scope Q_scope.

(** ** Tensors *)

Abbreviation row := (list Q).
Abbreviation batch := (list (list Q)).

Definition b2q (b : bool) : Q := if b then 1 else 0.
Definition b2z (b : bool) : Z := if b then 1%Z else 0%Z.

Definition Qlt_bool (x y : Q) : bool := negb (Qle_bool y x).

(** Elementwise binary operation on two tensors of one shape. *)
Fixpoint map2 {A B C : Type} (f : A -> B -> C) (l : list A) (l' : list B)
  : list C :=
  match l, l' with
  | a :: l, b :: l' => f a b :: map2 f l l'
  | _, _ => []
  end.

(** [torch.clamp(v, min=0., max=1.)] *)
Definition clamp01 (v : Q) : Q :=
  if Qlt_bool v 0 then 0 else if Qlt_bool 1 v then 1 else v.

(** [torch.sign] *)
Definition Qsign (v : Q) : Q :=
  if Qlt_bool 0 v then 1 else if Qlt_bool v 0 then - (1) else 0.

(** [F.one_hot(pos, num_classes=n)] for one sample. *)
Definition one_hot (n pos : nat) : row :=
  map (fun j => b2q (Nat.eqb j pos)) (seq 0 n).

(** [torch.max(v, dim=-1)] on one sample: the maximal value and the index
    of its first occurrence; [None] on an empty reduction dimension, where
    torch raises. *)
Fixpoint max_first_from (best : Q) (ibest i : nat) (l : row) : Q * nat :=
  match l with
  | [] => (best, ibest)
  | v :: l' =>
      if Qlt_bool best v then max_first_from v i (S i) l'
      else max_first_from best ibest (S i) l'
  end.

Definition torch_max (l : row) : option (Q * nat) :=
  match l with
  | [] => None
  | v :: l' => Some (max_first_from v 0%nat 1%nat l')
  end.

(** Boolean-mask indexing [t[mask]] and masked assignment [t[mask] = v]. *)
Fixpoint masked_select {A : Type} (t : list A) (mask : list bool) : list A :=
  match t, mask with
  | a :: t', b :: mask' =>
      if b then a :: masked_select t' mask' else masked_select t' mask'
  | _, _ => []
  end.

(** [t[mask] = v]: the rows of [v] replace, in order, the rows of [t] that
    the mask selects; [None] when [v] has not exactly one row per selected
    position (a shape error in torch, which broadcasts only a source of
    one row; such a source is not modelled and counts as an error
    here). *)
Fixpoint masked_assign {A : Type} (t : list A) (mask : list bool)
  (v : list A) : option (list A) :=
  match t, mask with
  | [], [] => match v with [] => Some [] | _ => None end
  | a :: t', b :: mask' =>
      if b then
        match v with
        | [] => None
        | r :: v' => option_map (cons r) (masked_assign t' mask' v')
        end
      else option_map (cons a) (masked_assign t' mask' v)
  | _, _ => None
  end.

(** ** The manipulation constraint model *)

Module Constraint.

(** [OrthogonalStepwiseMax.trans_grads] at one position: [m] is the entry
    of [self.manipulation_x] (an integer tensor), [g] the raw gradient and
    [a] the current feature value. *)
Definition trans_grads_at (m : Z) (g a : Q) : Q :=
  let pos_insertion := (b2z (Qle_bool a (1 # 2)) * 1 * b2z (Qle_bool 0 a))%Z in
  let grad4insertion := b2q (Qle_bool 0 g) * inject_Z pos_insertion * g in
  let pos_removal := (b2z (Qlt_bool (1 # 2) a) * 1)%Z in
  let grad4removal := b2q (Qlt_bool g 0) * inject_Z (Z.land pos_removal m) * g in
  grad4removal + grad4insertion.

(** One sample; the mask is broadcast over the batch. *)
Fixpoint trans_grads_row (mx : list Z) (g a : row) : row :=
  match mx, g, a with
  | m :: mx', gv :: g', av :: a' =>
      trans_grads_at m gv av :: trans_grads_row mx' g' a'
  | _, _, _ => []
  end.

Definition trans_grads (mx : list Z) (gradients adv_features : batch)
  : batch :=
  map2 (trans_grads_row mx) gradients adv_features.

(** [BCA._perturb], line 79:
    [grad4insertion = (grad > 0) * grad * (adv_x <= 0.5)]. *)
Definition grad4insertion_at (g a : Q) : Q :=
  b2q (Qlt_bool 0 g) * g * b2q (Qle_bool a (1 # 2)).

Definition grad4insertion (grad adv_x : batch) : batch :=
  map2 (map2 grad4insertion_at) grad adv_x.

End Constraint.

(** ** Random start: [tools/utils.py:rand_x] *)

Module Utils.

(** [Tensor.byte()]: a float is truncated toward zero and stored in an
    unsigned 8-bit cell. *)
Definition to_byte (v : Q) : Z :=
  ((Z.quot (Qnum v) (Zpos (Qden v))) mod 256)%Z.

(** [u] is the tensor drawn by [torch.rand(x.size())]. *)
Definition rand_x (x : batch) (rounding_threshold : Q) (is_sample : bool)
  (u : batch) : batch :=
  if is_sample then
    let rand := map (map (fun r => b2q (Qlt_bool rounding_threshold r))) u in
    map2 (map2 (fun r xv => inject_Z (Z.lor (to_byte r) (to_byte xv)))) rand x
  else x.

End Utils.

(** ** Exceptions, oracle queries and the attack monad *)

Inductive exn : Type :=
| UnboundLocalError (name : string)
| NameError (name : string)
| AssertionError
| TypeError
| ValueError
| ZeroDivisionError
| IndexError
| RuntimeError.

(** What the attack asks of the victim model. *)
Inductive query : Type :=
| QGetLoss (x : batch) (lambda_ : Q)
| QGrad (x : batch) (lambda_ : Q)
| QForwardF (x : batch)
| QForwardG (x : batch)
| QBackward (x : batch).

Record world : Type := mkWorld {
  queries : list query;   (* oracle queries so far, oldest first *)
  draws : nat             (* random tensors drawn so far *)
}.

Inductive res (A : Type) : Type :=
| Ok (a : A)
| Raise (e : exn).
Arguments Ok {A} a.
Arguments Raise {A} e.

Definition M (A : Type) : Type := world -> res A * world.

Definition ret {A : Type} (a : A) : M A := fun w => (Ok a, w).

Definition raise {A : Type} (e : exn) : M A := fun w => (Raise e, w).

Definition bind {A B : Type} (c : M A) (k : A -> M B) : M B :=
  fun w =>
    match c w with
    | (Ok a, w') => k a w'
    | (Raise e, w') => (Raise e, w')
    end.

Notation "x <- c ;; k" := (bind c (fun x => k))
  (at level 61, c at next level, right associativity).
Notation "' pat <- c ;; k" := (bind c (fun x => match x with pat => k end))
  (at level 61, pat pattern, c at next level, right associativity).

Definition ask (q : query) : M unit :=
  fun w => (Ok tt, mkWorld (queries w ++ [q]) (draws w)).

Definition fresh_draw : M nat :=
  fun w => (Ok (draws w), mkWorld (queries w) (S (draws w))).

Definition of_option {A : Type} (e : exn) (o : option A) : M A :=
  match o with Some a => ret a | None => raise e end.

Definition world0 : world := mkWorld [] 0.

(** What a Python call hands back to its caller. *)
Inductive pyval : Type :=
| PyList (items : list batch)     (* a Python list *)
| PyTensor (t : batch)
| PyTuple3 (a b c : batch).

Definition all_true (done : list bool) : bool := forallb (fun b => b) done.

Definition lift_res {A : Type} (r : res A) : M A := fun w => (r, w).

(** The rows a returned value contributes to [adv_x[mask] = value]. *)
Definition rows_of (v : pyval) : batch :=
  match v with
  | PyTensor t => t
  | PyList items => concat items
  | PyTuple3 a b c => a ++ b ++ c
  end.

(** ** Python floats: IEEE 754 binary64 on exact rationals *)

Module Float.

Definition pow2 (e : Z) : Q := 2 ^ e.

(** [floor (log2 q)] for [0 < q]. *)
Definition ilog2 (q : Q) : Z :=
  let c := (Z.log2 (Qnum q) - Z.log2 (Zpos (Qden q)))%Z in
  if Qle_bool (pow2 c) q then c else (c - 1)%Z.

(** The nearest integer, a tie going to the even one. *)
Definition rne (q : Q) : Z :=
  let f := Qfloor q in
  match Qcompare (q - inject_Z f) (1 # 2) with
  | Lt => f
  | Gt => (f + 1)%Z
  | Eq => if Z.even f then f else (f + 1)%Z
  end.

(** The infinite double. *)
Definition inf : Q := pow2 1024.

(** The double nearest to [q] for [0 < q]: 53 significant bits, the unit
    in the last place never below [2 ^ -1074] (subnormal numbers), and
    infinity once the rounded value reaches [2 ^ 1024]. *)
Definition round_pos (q : Q) : Q :=
  let e := Z.max (ilog2 q - 52) (-1074) in
  let r := inject_Z (rne (q / pow2 e)) * pow2 e in
  if Qle_bool inf r then inf else Qred r.

Definition round (q : Q) : Q :=
  match Qcompare q 0 with
  | Eq => 0
  | Gt => round_pos q
  | Lt => - round_pos (- q)
  end.

(** [a * b] on doubles.  An infinite factor gives an infinite product
    ([inf * 0] is NaN and outside the model). *)
Definition mul (a b : Q) : Q :=
  if Qle_bool inf (Qabs a) || Qle_bool inf (Qabs b) then
    match Qcompare (a * b) 0 with
    | Gt => inf
    | Lt => - inf
    | Eq => 0
    end
  else round (a * b).

(** [lam] after [n] statements [lam *= base]. *)
Fixpoint escalate (base lam : Q) (n : nat) : Q :=
  match n with
  | O => lam
  | S n' => escalate base (mul lam base) n'
  end.

(** [q] is the value of a double. *)
Definition is_float (q : Q) : Prop := round q == q.

End Float.

(** ** Bit coordinate ascent: [core/attack/bca.py] *)

Module BCA.

(** The collaborators of [BCA] that live outside [bca.py]: the inherited
    [BaseAttack.get_loss] and [BaseAttack.check_lambda], the victim model
    behind them, autograd, and [tools.utils.get_x0]. *)
Record oracle : Type := mkOracle {
  (* [self.get_loss(model, x, label, lambda_)]: per-sample loss and done flag *)
  get_loss : batch -> list Z -> Q -> list Q * list bool;
  (* [torch.autograd.grad(torch.mean(loss), var_adv_x)[0]] *)
  grad_mean_loss : batch -> list Z -> Q -> batch;
  (* [hasattr(model, 'forward_g')] *)
  has_forward_g : bool;
  (* [self.check_lambda(model)], read after [self.lambda_] is updated *)
  check_lambda : Q -> bool;
  (* [get_x0(adv_x, rounding_threshold=0.5, is_sample=True)], n-th draw *)
  get_x0 : nat -> batch -> batch
}.

(** Lines 79-86 of [_perturb] for one sample: [a] is the current vector,
    [g] its gradient row and [d] its done flag. *)
Definition update_row (a g : row) (d : bool) : res row :=
  let grad4ins_ := map2 Constraint.grad4insertion_at g a in
  match torch_max grad4ins_ with
  | None => Raise IndexError
  | Some (_, pos) =>
      let perturbation := one_hot (length grad4ins_) pos in
      let perturbation :=
        if d then map (fun _ => 0) perturbation else perturbation in
      Ok (map clamp01 (map2 Qplus a perturbation))
  end.

(** Lines 79-86 for the batch. *)
Fixpoint update (adv_x grad : batch) (done : list bool) : res batch :=
  match adv_x, grad, done with
  | [], [], [] => Ok []
  | a :: adv_x', g :: grad', d :: done' =>
      match update_row a g d with
      | Raise e => Raise e
      | Ok r =>
          match update adv_x' grad' done' with
          | Raise e => Raise e
          | Ok rs => Ok (r :: rs)
          end
      end
  | _, _, _ => Raise RuntimeError
  end.

(** The [for t in range(m)] loop of [_perturb], from step [t] with [todo]
    steps left. *)
Fixpoint steps (o : oracle) (use_sample : bool) (label : list Z)
  (lambda_ : Q) (t todo : nat) (adv_x : batch) : M batch :=
  match todo with
  | O => ret adv_x
  | S todo' =>
      adv_x <- (if use_sample && Nat.eqb t 0
               then n <- fresh_draw ;; ret (get_x0 o n adv_x)
               else ret adv_x) ;;
      _ <- ask (QGetLoss adv_x lambda_) ;;
      let done := snd (get_loss o adv_x label lambda_) in
      if all_true done then ret adv_x
      else
        _ <- ask (QGrad adv_x lambda_) ;;
        let grad := grad_mean_loss o adv_x label lambda_ in
        adv_x' <- lift_res (update adv_x grad done) ;;
        steps o use_sample label lambda_ (S t) todo' adv_x'
  end.

(** [BCA._perturb] *)
Definition _perturb (o : oracle) (x : batch) (label : list Z) (m : nat)
  (lambda_ : Q) (use_sample : bool) : M pyval :=
  if (length x <=? 0)%nat then ret (PyList [])
  else r <- steps o use_sample label lambda_ 0 m x ;; ret (PyTensor r).

(** The [while self.lambda_ <= max_lambda_] loop of [perturb].  [rounds]
    counts the entries into the loop body; [None] means the fuel ran out
    before the loop ended.  [min_lambda_], [max_lambda_] and [base] are
    Python floats, as their defaults are, and [self.lambda_ *= base]
    rounds. *)
Fixpoint lambda_loop (o : oracle) (label : list Z) (m : nat)
  (max_lambda_ : Q) (use_sample : bool) (base : Q) (fuel : nat)
  (lambda_ : Q) (adv_x : batch) (rounds : nat)
  : M (option (batch * Q * nat)) :=
  match fuel with
  | O => ret None
  | S fuel' =>
      if Qle_bool lambda_ max_lambda_ then
        _ <- ask (QGetLoss adv_x lambda_) ;;
        let done := snd (get_loss o adv_x label lambda_) in
        if all_true done then ret (Some (adv_x, lambda_, S rounds))
        else
          let not_done := map negb done in
          pert_x <- _perturb o (masked_select adv_x not_done)
                      (masked_select label not_done) m lambda_ use_sample ;;
          adv_x' <- of_option RuntimeError
                      (masked_assign adv_x not_done (rows_of pert_x)) ;;
          let lambda_' := Float.mul lambda_ base in
          if negb (check_lambda o lambda_')
          then ret (Some (adv_x', lambda_', S rounds))
          else lambda_loop o label m max_lambda_ use_sample base fuel'
                 lambda_' adv_x' (S rounds)
      else ret (Some (adv_x, lambda_, rounds))
  end.

(** [BCA.perturb]: the adversarial batch it returns, the value it leaves in
    [self.lambda_], and the number of rounds. *)
Definition perturb (o : oracle) (x : batch) (label : list Z) (m : nat)
  (min_lambda_ max_lambda_ : Q) (use_sample : bool) (base : Q)
  (fuel : nat) : M (option (batch * Q * nat)) :=
  if negb (Qlt_bool 0 min_lambda_ && Qle_bool min_lambda_ max_lambda_)
  then raise AssertionError
  else
    let lambda0 := if has_forward_g o then min_lambda_ else max_lambda_ in
    r <- lambda_loop o label m max_lambda_ use_sample base fuel lambda0 x 0 ;;
    match r with
    | None => ret None
    | Some (adv_x, lambda_, rounds) =>
        _ <- ask (QGetLoss adv_x lambda_) ;;
        ret (Some (adv_x, lambda_, rounds))
    end.

End BCA.

(** ** Orthogonal stepwise max: [core/attack/orthogonal_stepwise_max.py] *)

Module OSM.

(** The victim model, as the attack uses it. *)
Record victim : Type := mkVictim {
  has_forward_g : bool;                 (* [hasattr(model, 'forward_g')] *)
  own_forward_g : bool;    (* ['forward_g' in type(model).__dict__.keys()] *)
  forward_f : batch -> list row;        (* classifier logits *)
  forward_g : batch -> list Q;          (* detector logits *)
  tau : Q;
  (* gradient at [x] left by [ce.backward()] *)
  grad_ce : batch -> list Z -> batch;
  (* gradient at [x] left by [loss_detector.backward()] *)
  grad_bce : batch -> batch
}.

(** Library functions the file calls, and the helpers it takes from
    [tools.utils] and from the base classes. *)
Record library : Type := mkLibrary {
  cross_entropy : row -> Z -> Q;   (* [F.cross_entropy(.., reduction='none')] *)
  sigmoid : Q -> Q;                (* [F.sigmoid] *)
  l2norm : row -> Q;               (* [torch.linalg.norm(., dim=-1)] *)
  round_x : batch -> Q -> batch;   (* [tools.utils.round_x] *)
  get_x0 : nat -> batch -> Q -> batch;   (* [tools.utils.get_x0], n-th draw *)
  (* [self.get_loss(model, x, label, lambda_)] of the base class *)
  get_loss : batch -> list Z -> Q -> list Q * list bool
}.

(** The fields of [self]. *)
Record attack : Type := mkAttack {
  project_detector : bool;
  project_classifier : bool;
  k : option nat;          (* [None] or a step period *)
  use_random : bool;
  round_threshold : Q;
  lambda_ : Q;
  manipulation_x : list Z;
  oblivion : bool
}.

Definition dot (g h : row) : Q := fold_right Qplus 0 (map2 Qmult g h).

(** Lines 148-152 and 160-164 for one sample: [g] minus its component
    along [h], with [1e-20] added to the denominator. *)
Definition orth_project (g h : row) : row :=
  let coef := dot g h / ((1 # 100000000000000000000) + dot h h) in
  map2 (fun gv hv => gv - coef * hv) g h.

(** [logits.argmax(1)] for one sample. *)
Definition argmax (l : row) : nat :=
  match torch_max l with Some (_, i) => i | None => 0%nat end.

(** [logits_classifier[range(batch_size), 0] - 10.] written back. *)
Definition lower_class0 (l : row) : row :=
  match l with [] => [] | v :: l' => (v - 10) :: l' end.

(** [if self.k:] *)
Definition truthy (k : option nat) : bool :=
  match k with Some (S _) => true | _ => false end.

(** [grad_classifier_proj * wc(s) + grad_detector_proj * wd(s)], the flag
    [s] of a sample broadcast over its row. *)
Definition blend (wc wd : Q -> Q) (s : list Q) (c d : batch) : batch :=
  map2 (fun sv cd => map (fun p => fst p * wc sv + snd p * wd sv) cd)
    s (map2 (@combine Q Q) c d).

(** Lines 129-186: the gradient that drives step [t]. *)
Definition step_grad (a : attack) (v : victim) (label : list Z) (t : nat)
  (adv_x : batch) : batch :=
  let logits_classifier := forward_f v adv_x in
  let grad_classifier :=
    Constraint.trans_grads (manipulation_x a) (grad_ce v adv_x label) adv_x in
  let logits_detector := forward_g v adv_x in
  let grad_detector :=
    Constraint.trans_grads (manipulation_x a) (grad_bce v adv_x) adv_x in
  let grad_detector_proj :=
    if project_detector a
    then map2 orth_project grad_detector grad_classifier
    else grad_detector in
  let grad_classifier_proj :=
    if project_classifier a
    then map2 orth_project grad_classifier grad_detector
    else grad_classifier in
  let has_attack_succeeded :=
    if project_detector a
    then map (fun l => b2q (Nat.eqb (argmax (lower_class0 l)) 0))
           logits_classifier
    else map (fun lg => b2q (Qle_bool lg (tau v))) logits_detector in
  if truthy (k a) then
    if Nat.eqb (t mod (match k a with Some p => p | None => 1 end)) 0
    then grad_detector_proj else grad_classifier_proj
  else
    if project_detector a
    then blend (fun s => 1 - s) (fun s => s) has_attack_succeeded
           grad_classifier_proj grad_detector_proj
    else blend (fun s => s) (fun s => 1 - s) has_attack_succeeded
           grad_classifier_proj grad_detector_proj.

(** The three candidate batches are locals of [_perturb]; [None] is a name
    that has not been bound yet. *)
Record locals : Type := mkLocals {
  adv_x_linf : option batch;
  adv_x_l2 : option batch;
  adv_x_l1 : option batch
}.

Definition read_local (name : string) (v : option batch) : M batch :=
  of_option (UnboundLocalError name) v.

(** Names bound at module level that hold a number. *)
Definition read_global (name : string) : M Q :=
  if String.eqb name "EXP_OVER_FLOW"
  then ret (1 # 10 ^ 120)
  else raise (NameError name).

Definition Qmin1 (v : Q) : Q := if Qle_bool 1 v then 1 else v.

(** [int(q)]: truncation toward zero. *)
Definition py_int (q : Q) : Z := Z.quot (Qnum q) (Zpos (Qden q)).

(** Indices of the [k] largest entries, as a 0/1 mask
    ([F.one_hot(idx, ..).sum(dim=1)]); [None] when [k] exceeds the row. *)
Fixpoint best_free (v : row) (taken : list bool) (i : nat)
  (best : option (Q * nat)) : option (Q * nat) :=
  match v, taken with
  | q :: v', b :: taken' =>
      let best' :=
        if b then best
        else match best with
             | None => Some (q, i)
             | Some (bq, _) => if Qlt_bool bq q then Some (q, i) else best
             end in
      best_free v' taken' (S i) best'
  | _, _ => best
  end.

Fixpoint set_true (i : nat) (l : list bool) : list bool :=
  match l, i with
  | [], _ => []
  | _ :: l', O => true :: l'
  | b :: l', S i' => b :: set_true i' l'
  end.

Fixpoint topk_mask (k : nat) (v : row) (taken : list bool)
  : option (list bool) :=
  match k with
  | O => Some taken
  | S k' =>
      match best_free v taken 0 None with
      | None => None
      | Some (_, i) => topk_mask k' v (set_true i taken)
      end
  end.

Definition l1_direction (k : Z) (g : row) : res row :=
  if (k <? 0)%Z then Raise RuntimeError
  else
    match topk_mask (Z.to_nat k) (map Qabs g) (map (fun _ => false) g) with
    | None => Raise RuntimeError
    | Some mask => Ok (map2 (fun gv b => Qsign gv * b2q b) g mask)
    end.

Fixpoint map_res {A B : Type} (f : A -> res B) (l : list A) : res (list B) :=
  match l with
  | [] => Ok []
  | a :: l' =>
      match f a with
      | Raise e => Raise e
      | Ok b =>
          match map_res f l' with
          | Raise e => Raise e
          | Ok bs => Ok (b :: bs)
          end
      end
  end.

Definition add_scaled (sl : Q) (x p : batch) : batch :=
  map2 (map2 (fun xv pv => clamp01 (xv + pv * sl))) x p.

(** Lines 192-205: the three updates of one step. *)
Definition step_update (lib : library) (step_length_l1 step_length_l2
  step_length_linf : Q) (grad : batch) (loc : locals) : M locals :=
  let perturbation := map (map Qsign) grad in
  cur_linf <- read_local "adv_x_linf" (adv_x_linf loc) ;;
  let new_linf := add_scaled step_length_linf cur_linf perturbation in
  let perturbation :=
    map (fun g => map (fun gv => Qmin1 (gv / l2norm lib g)) g) grad in
  cur_l2 <- read_local "adv_x_l2" (adv_x_l2 loc) ;;
  let new_l2 := add_scaled step_length_l2 cur_l2 perturbation in
  step_length <- read_global "step_length" ;;
  top <- (if Qeq_bool step_length 0 then raise ZeroDivisionError
          else ret (py_int (1 / step_length))) ;;
  perturbation <- lift_res (map_res (l1_direction top) grad) ;;
  cur_l1 <- read_local "adv_x_l1" (adv_x_l1 loc) ;;
  let new_l1 := add_scaled step_length_l1 cur_l1 perturbation in
  ret (mkLocals (Some new_linf) (Some new_l2) (Some new_l1)).

(** The [for t in range(steps)] loop of [_perturb]. *)
Fixpoint steps_loop (lib : library) (a : attack) (v : victim)
  (label : list Z) (sl_l1 sl_l2 sl_linf : Q) (t todo : nat)
  (adv_x : batch) (loc : locals) : M locals :=
  match todo with
  | O => ret loc
  | S todo' =>
      adv_x <- (if Nat.eqb t 0 && use_random a
               then n <- fresh_draw ;;
                    ret (get_x0 lib n adv_x (round_threshold a))
               else ret adv_x) ;;
      _ <- ask (QForwardF adv_x) ;;
      _ <- ask (QBackward adv_x) ;;
      _ <- ask (QForwardG adv_x) ;;
      _ <- ask (QBackward adv_x) ;;
      let grad := step_grad a v label t adv_x in
      loc' <- step_update lib sl_l1 sl_l2 sl_linf grad loc ;;
      steps_loop lib a v label sl_l1 sl_l2 sl_linf (S t) todo' adv_x loc'
  end.

(** [OrthogonalStepwiseMax._perturb] *)
Definition _perturb (lib : library) (a : attack) (v : victim) (x : batch)
  (label : list Z) (steps : Z) (step_length_l1 step_length_l2
  step_length_linf : Q) : M pyval :=
  if (length x <=? 0)%nat then ret (PyList [])
  else if negb (has_forward_g v) then raise AssertionError
  else
    loc <- steps_loop lib a v label step_length_l1 step_length_l2
             step_length_linf 0 (Z.to_nat steps) x
             (mkLocals None None None) ;;
    r_linf <- read_local "adv_x_linf" (adv_x_linf loc) ;;
    r_l2 <- read_local "adv_x_l2" (adv_x_l2 loc) ;;
    r_l1 <- read_local "adv_x_l1" (adv_x_l1 loc) ;;
    ret (PyTuple3 r_linf r_l2 r_l1).

(** [OrthogonalStepwiseMax.get_scores] *)
Definition get_scores (lib : library) (a : attack) (v : victim)
  (pertb_x : batch) (label : list Z) : M (list Q * list bool) :=
  _ <- ask (QForwardF pertb_x) ;;
  let logits_f := forward_f v pertb_x in
  let ce := map2 (cross_entropy lib) logits_f label in
  let y_pred := map argmax logits_f in
  if own_forward_g v && negb (oblivion a) then
    _ <- ask (QForwardG pertb_x) ;;
    let logits_g := forward_g v pertb_x in
    let loss_no_reduction := map2 (fun c g => c - sigmoid lib g) ce logits_g in
    let done :=
      map2 (fun y g => Nat.eqb y 0 && Qle_bool g (tau v)) y_pred logits_g in
    ret (loss_no_reduction, done)
  else
    ret (ce, map (fun y => Nat.eqb y 0) y_pred).

(** Lines 86-89 for sample [j]: entry [s] of its score row is
    [scores[s * num_sample_red + j]], and the candidate kept is the one of
    the first maximal score. *)
Definition scores_of (n_attacks num_sample_red : nat) (scores : list Q)
  (j : nat) : row :=
  map (fun s => nth (s * num_sample_red + j) scores 0) (seq 0 n_attacks).

Definition s_idx (n_attacks num_sample_red : nat) (scores : list Q)
  (j : nat) : nat :=
  argmax (scores_of n_attacks num_sample_red scores j).

Definition select_best (n_attacks num_sample_red : nat) (pertbx : batch)
  (scores : list Q) : batch :=
  map (fun j =>
         nth (s_idx n_attacks num_sample_red scores j * num_sample_red + j)
           pertbx [])
    (seq 0 num_sample_red).

Definition count_true (mask : list bool) : nat :=
  length (filter (fun b => b) mask).

(** Lines 80-90: the checkpoint; returns the new [adv_x] and
    [pert_x_cont].  The two [reshape] calls raise unless the stack and the
    scores hold [n_attacks * num_sample_red] rows. *)
Definition checkpoint (lib : library) (a : attack) (v : victim)
  (adv_x : batch) (label : list Z) (done : list bool)
  (pert_x_linf pert_x_l2 pert_x_l1 : batch) : M (batch * batch) :=
  let not_done := map negb done in
  let num_sample_red := count_true not_done in
  let pertb_x_list := [pert_x_linf; pert_x_l2; pert_x_l1] in
  let n_attacks := length pertb_x_list in
  let pertbx := List.concat pertb_x_list in
  let label_ext :=
    List.concat (repeat (masked_select label not_done) n_attacks) in
  '(scores, _) <- get_scores lib a v pertbx label_ext ;;
  if negb (Nat.eqb (length pertbx) (n_attacks * num_sample_red))
     || negb (Nat.eqb (length scores) (n_attacks * num_sample_red))
  then raise RuntimeError
  else
    let pert_x_cont := select_best n_attacks num_sample_red pertbx scores in
    adv_x' <- of_option RuntimeError
                (masked_assign adv_x not_done
                   (round_x lib pert_x_cont (round_threshold a))) ;;
    ret (adv_x', pert_x_cont).

(** Lines 53-54. *)
Definition mini_steps (steps step_check : Z) : res (list Z) :=
  if (step_check =? 0)%Z then Raise ZeroDivisionError
  else
    let l := repeat step_check (Z.to_nat (steps / step_check)) in
    Ok (if negb (steps mod step_check =? 0)%Z
        then l ++ [(steps mod step_check)%Z] else l).

Definition unpack3 (r : pyval) : M (batch * batch * batch) :=
  match r with
  | PyTuple3 c1 c2 c3 => ret (c1, c2, c3)
  | _ => raise ValueError
  end.

(** The [for i, mini_step in enumerate(mini_steps)] loop of [perturb];
    [inner] is the method [self._perturb]. *)
Fixpoint rounds (lib : library) (a : attack) (v : victim)
  (inner : batch -> list Z -> Z -> M pyval)
  (x : batch) (label : list Z) (i : nat) (todo : list Z)
  (adv_x : batch) (pert_x_cont : option batch)
  (prev_done : option (list bool)) : M batch :=
  match todo with
  | [] => ret adv_x
  | mini_step :: todo' =>
      _ <- ask (QGetLoss adv_x (lambda_ a)) ;;
      let done := snd (get_loss lib adv_x label (lambda_ a)) in
      if all_true done then ret adv_x
      else
        let not_done := map negb done in
        restart <-
          (if Nat.eqb i 0 then ret (masked_select x not_done)
           else
             cont <- of_option TypeError pert_x_cont ;;
             prev <- of_option TypeError prev_done ;;
             ret (masked_select cont
                    (map negb (masked_select done (map negb prev))))) ;;
        adv_x <- of_option RuntimeError
                   (masked_assign adv_x not_done restart) ;;
        r <- inner (masked_select adv_x not_done)
               (masked_select label not_done) mini_step ;;
        '(c_linf, c_l2, c_l1) <- unpack3 r ;;
        '(adv_x', cont') <- checkpoint lib a v adv_x label done
                              c_linf c_l2 c_l1 ;;
        rounds lib a v inner x label (S i) todo' adv_x' (Some cont')
          (Some done)
  end.

Definition perturb_with (lib : library) (a : attack) (v : victim)
  (inner : batch -> list Z -> Z -> M pyval)
  (x : batch) (label : list Z) (steps step_check : Z)
  (sl_l1 sl_l2 sl_linf : Q) : M batch :=
  if negb ((0 <=? steps)%Z && Qle_bool sl_l1 1 && Qlt_bool 0 sl_l1
           && Qle_bool 0 sl_l2 && Qle_bool 0 sl_linf)
  then raise AssertionError
  else
    ms <- lift_res (mini_steps steps step_check) ;;
    adv_x <- rounds lib a v inner x label 0 ms x None None ;;
    _ <- ask (QGetLoss adv_x (lambda_ a)) ;;
    ret adv_x.

(** [OrthogonalStepwiseMax.perturb] *)
Definition perturb (lib : library) (a : attack) (v : victim)
  (x : batch) (label : list Z) (steps step_check : Z)
  (sl_l1 sl_l2 sl_linf : Q) : M batch :=
  perturb_with lib a v
    (fun x' label' mini_step =>
       _perturb lib a v x' label' mini_step sl_l1 sl_l2 sl_linf)
    x label steps step_check sl_l1 sl_l2 sl_linf.

End OSM.

(** ** Objects and strings: further functions of [tools/utils.py] *)

Module UtilsPy.

(** A Python [str] is the list of its code points. *)
Abbreviation pystr := (list N).

Definition dot : N := 46.        (* '.' *)
Definition slash : N := 47.      (* '/' *)
Definition colon : N := 58.      (* ':' *)
Definition semicolon : N := 59.  (* ';' *)
Definition upper_l : N := 76.    (* 'L' *)

(** What a caller may hand to these functions. *)
Inductive pyobj : Type :=
| ObjNone
| ObjTensor (t : batch)
| ObjStr (s : pystr)
| ObjStrList (l : list pystr)
| ObjOther.

(** [if v is not None: assert isinstance(v, torch.Tensor); v = v.to(device)];
    moving a tensor to a device keeps its entries. *)
Definition move (v : pyobj) : res pyobj :=
  match v with
  | ObjNone => Ok ObjNone
  | ObjTensor t => Ok (ObjTensor t)
  | _ => Raise AssertionError
  end.

(** [to_device(x, adj, labels, device)]; the result is the tuple
    [x, adj, labels]. *)
Definition to_device (x adj labels device : pyobj) : res (list pyobj) :=
  match move x with
  | Raise e => Raise e
  | Ok x' =>
    match move adj with
    | Raise e => Raise e
    | Ok adj' =>
      match move labels with
      | Raise e => Raise e
      | Ok labels' => Ok [x'; adj'; labels']
      end
    end
  end.

(** [a, b = t] *)
Definition unpack2 (t : list pyobj) : res (pyobj * pyobj) :=
  match t with
  | [a; b] => Ok (a, b)
  | _ => Raise ValueError
  end.

(** [x, y = utils.to_device(x.double(), y.long(), self.device)] of
    [core/defense/amd_dla.py]: the third positional argument is [labels],
    and [device] keeps its default ['cpu']. *)
Definition amd_dla_to_device (x y : batch) (self_device : pyobj)
  : res (pyobj * pyobj) :=
  match to_device (ObjTensor x) (ObjTensor y) self_device
          (ObjStr [99%N; 112%N; 117%N]) with
  | Raise e => Raise e
  | Ok t => unpack2 t
  end.

(** [s.replace(old, new)] for one-character [old] and [new]. *)
Definition replace (old new : N) (s : pystr) : pystr :=
  map (fun c => if N.eqb c old then new else c) s.

(** [java_class_name2smali_name] *)
Definition java_class_name2smali_name (cls : pyobj) : res pyobj :=
  match cls with
  | ObjNone => Ok ObjNone
  | ObjStr s => Ok (ObjStr (upper_l :: replace dot slash s ++ [semicolon]))
  | _ => Raise ValueError
  end.

(** [str.isspace] for one code point. *)
Definition is_space (c : N) : bool :=
  ((9 <=? c) && (c <=? 13) || (28 <=? c) && (c <=? 32) ||
   (c =? 133) || (c =? 160) || (c =? 5760) ||
   (8192 <=? c) && (c <=? 8202) ||
   (c =? 8232) || (c =? 8233) || (c =? 8239) || (c =? 8287) ||
   (c =? 12288))%N.

Fixpoint lstrip (s : pystr) : pystr :=
  match s with
  | c :: s' => if is_space c then lstrip s' else s
  | [] => []
  end.

(** [s.strip()] *)
Definition strip (s : pystr) : pystr := rev (lstrip (rev (lstrip s))).

(** [s.split(sep)] for a one-character separator: never an empty list. *)
Fixpoint split (sep : N) (s : pystr) : list pystr :=
  match s with
  | [] => [[]]
  | c :: s' =>
    if N.eqb c sep then [] :: split sep s'
    else match split sep s' with
         | p :: ps => (c :: p) :: ps
         | [] => [[c]]
         end
  end.

(** The truth value of a string, as [filter(None, ...)] tests it. *)
Definition nonempty (s : pystr) : bool :=
  match s with [] => false | _ => true end.

(** [sep.join(l)] *)
Fixpoint join (sep : N) (l : list pystr) : pystr :=
  match l with
  | [] => []
  | p :: ps =>
    match ps with
    | [] => p
    | _ => p ++ sep :: join sep ps
    end
  end.

(** ['.'.join(list(filter(None, comp.strip().split('.'))))] *)
Definition dedup (comp : pystr) : pystr :=
  join dot (filter nonempty (split dot (strip comp))).

(** [remove_duplicate] *)
Definition remove_duplicate (components : pyobj) : res pyobj :=
  match components with
  | ObjStrList l => Ok (ObjStrList (map dedup l))
  | ObjStr s => Ok (ObjStr (dedup s))
  | _ => Raise TypeError
  end.

Fixpoint str_eqb (a b : pystr) : bool :=
  match a, b with
  | [], [] => true
  | c :: a', d :: b' => N.eqb c d && str_eqb a' b'
  | _, _ => false
  end.

(** A [dict] with string keys and values, in insertion order. *)
Abbreviation pydict := (list (list N * list N)).

Fixpoint dict_set (d : pydict) (k v : pystr) : pydict :=
  match d with
  | [] => [(k, v)]
  | (k', v') :: d' =>
    if str_eqb k' k then (k', v) :: d' else (k', v') :: dict_set d' k v
  end.

(** [dict(var.split(':') for var in vars)]: every element of the sequence
    must have exactly two items. *)
Fixpoint dict_of_splits (d : pydict) (vars : list pystr) : res pydict :=
  match vars with
  | [] => Ok d
  | var :: vars' =>
    match split colon var with
    | [k; v] => dict_of_splits (dict_set d k v) vars'
    | _ => Raise ValueError
    end
  end.

(** [inverse_kwargs] *)
Definition inverse_kwargs (vars : pyobj) : res pydict :=
  match vars with
  | ObjStrList l => dict_of_splits [] l
  | _ => Raise AssertionError
  end.

End UtilsPy.

(** ** Auxiliary notions used in the statements *)

(** Every entry lies in [[0,1]]. *)
Definition unit_row (r : row) : Prop := Forall (fun v => 0 <= v /\ v <= 1) r.
Definition unit_batch (x : batch) : Prop := Forall unit_row x.

(** Two tensors of one shape. *)
Definition same_shape (x y : batch) : Prop :=
  Forall2 (fun r r' : row => length r = length r') x y.

(** The success flag of a sample depends on that sample alone. *)
Definition per_sample (get_loss : batch -> list Z -> Q -> list Q * list bool)
  (succ : row -> Z -> bool) : Prop :=
  forall xs ls lam, snd (get_loss xs ls lam) = map2 succ xs ls.

(** How the lambda loop of [BCA.perturb] may end when it starts in round
    counter [r] with penalty [lam] and may enter its body at most [f] more
    times: with an exception, or, never out of fuel, after at most [f]
    further rounds and either on success of every sample under the current
    penalty, or with a penalty that exceeds the bound or is refused by
    [check_lambda]; the penalty is the start value after one rounded
    multiplication by [base] per completed round. *)
Definition loop_post (o : BCA.oracle) (label : list Z) (max_lambda_ base : Q)
  (lam : Q) (r f : nat) (out : res (option (list (list Q) * Q * nat)))
  : Prop :=
  match out with
  | Raise _ => True
  | Ok None => False
  | Ok (Some (adv', lam', r')) =>
      (r <= r')%nat /\ (r' <= r + f)%nat /\
      (((r < r')%nat /\ lam' = Float.escalate base lam (r' - r - 1) /\
        lam' <= max_lambda_ /\
        all_true (snd (BCA.get_loss o adv' label lam')) = true)
       \/
       (lam' = Float.escalate base lam (r' - r) /\
        (max_lambda_ < lam' \/ BCA.check_lambda o lam' = false)))
  end.

(** Number of positions at which two rows of one length differ. *)
Fixpoint differ (a b : list Q) : nat :=
  match a, b with
  | x :: a', y :: b' => (if Qeq_bool x y then 0 else 1) + differ a' b'
  | _, _ => 0%nat
  end.

(** Number of entries of a row that are not zero. *)
Fixpoint nonzeros (p : list Q) : nat :=
  match p with
  | [] => 0%nat
  | v :: p' => (if Qeq_bool v 0 then 0 else 1) + nonzeros p'
  end.

(** Every entry is 0 or 1. *)
Definition binary_row (r : list Q) : Prop := Forall (fun v => v == 0 \/ v == 1) r.

(** What [todo] steps of bit coordinate ascent may do to a sample: the
    length is kept, no entry decreases, at most [todo] entries change, the
    result lies in [[0,1]], and a binary sample stays binary. *)
Definition inserted (todo : nat) (a r : list Q) : Prop :=
  length r = length a /\ Forall2 Qle a r /\ (differ a r <= todo)%nat /\
  unit_row r /\ (binary_row a -> binary_row r).

(** A batch whose samples all have [d] features. *)
Definition rect (d : nat) (x : list (list Q)) : Prop :=
  Forall (fun r => length r = d) x.

(** What autograd and the oracle contract give for batches of [d]
    features: one done flag per sample, a gradient of the shape of the
    input, and a random start of the shape of the input. *)
Record well_behaved (d : nat) (o : BCA.oracle) : Prop := mkWellBehaved {
  wb_done : forall xs ls lam,
      length ls = length xs ->
      length (snd (BCA.get_loss o xs ls lam)) = length xs;
  wb_grad_len : forall xs ls lam,
      length (BCA.grad_mean_loss o xs ls lam) = length xs;
  wb_grad : forall xs ls lam,
      rect d xs -> rect d (BCA.grad_mean_loss o xs ls lam);
  wb_x0_len : forall n xs, length (BCA.get_x0 o n xs) = length xs;
  wb_x0 : forall n xs, rect d xs -> rect d (BCA.get_x0 o n xs)
}.

(** ** Mock oracles for the scenarios *)

Module Mock.

Definition zeros10 : row := [0; 0; 0; 0; 0; 0; 0; 0; 0; 0].

(** Never reports success; its gradient is largest at dimension 3 and
    second largest at dimension 7. *)
Definition favour_3_then_7 : BCA.oracle :=
  BCA.mkOracle
    (fun xs _ _ => (map (fun _ => 0) xs, map (fun _ => false) xs))
    (fun xs _ _ => map (fun _ => [0; 0; 0; 2; 0; 0; 0; 1; 0; 0]) xs)
    false (fun _ => false) (fun _ x => x).

(** Never reports success; its gradient points at dimension 3 while that
    feature is off, and at dimension 7 afterwards. *)
Definition first_3_later_7 : BCA.oracle :=
  BCA.mkOracle
    (fun xs _ _ => (map (fun _ => 0) xs, map (fun _ => false) xs))
    (fun xs _ _ =>
       map (fun r => if Qle_bool (nth 3 r 0) (1 # 2)
                     then one_hot 10 3 else one_hot 10 7) xs)
    false (fun _ => false) (fun _ x => x).

(** A sample evades as soon as feature 0 is on. *)
Definition succ0 (r : row) (_ : Z) : bool := Qle_bool 1 (nth 0 r 0).

(** Success is [succ0]; the gradient favours dimension 2, then 1, then 0;
    the model has a detector and [check_lambda] always agrees. *)
Definition feature0 : BCA.oracle :=
  BCA.mkOracle
    (fun xs ls _ => (map (fun _ => 0) xs, map2 succ0 xs ls))
    (fun xs _ _ => map (fun _ => [1; 2; 3]) xs)
    true (fun _ => true) (fun _ x => x).

(** Never reports success, has a detector, [check_lambda] always agrees. *)
Definition stubborn : BCA.oracle :=
  BCA.mkOracle
    (fun xs _ _ => (map (fun _ => 0) xs, map (fun _ => false) xs))
    (fun xs _ _ => map (fun _ => [1; 2; 3]) xs)
    true (fun _ => true) (fun _ x => x).

(** A victim with two classes whose logits and detector read features 0
    and 1, and the helpers of the orthogonal attack: losses are linear
    stand-ins, [round_x] thresholds, success is [succ0]. *)
Definition victim0 : OSM.victim :=
  OSM.mkVictim true true
    (fun xs => map (fun r => [nth 0 r 0; 1 - nth 0 r 0]) xs)
    (fun xs => map (fun r => nth 1 r 0) xs)
    (1 # 2)
    (fun xs _ => map (fun r => map (fun _ => 1) r) xs)
    (fun xs => map (fun r => map (fun _ => - (1)) r) xs).

Definition library0 : OSM.library :=
  OSM.mkLibrary
    (fun logits _ => nth 0 logits 0)
    (fun z => z)
    (fun r => 1)
    (fun b th => map (map (fun q => b2q (Qle_bool th q))) b)
    (fun _ x _ => x)
    (fun xs ls _ => (map (fun _ => 0) xs, map2 succ0 xs ls)).

Definition attack0 : OSM.attack :=
  OSM.mkAttack true false None false (1 # 2) 1 [1%Z; 1%Z; 1%Z] false.

(** The same attack with the detector left out of the objective. *)
Definition oblivious0 : OSM.attack :=
  OSM.mkAttack true false None false (1 # 2) 1 [1%Z; 1%Z; 1%Z] true.

(** An inner attack that does return three candidates: each sample with
    feature 0, feature 1 or feature 2 raised. *)
Definition inner0 (x : batch) (_ : list Z) (_ : Z) : M pyval :=
  ret (PyTuple3
         (map (fun r => map2 Qplus r [3 # 4; 0; 0]) x)
         (map (fun r => map2 Qplus r [0; 3 # 4; 0]) x)
         (map (fun r => map2 Qplus r [0; 0; 3 # 4]) x)).

(** Never reports success; the gradient of an entry is one minus its
    value, so features that are off are favoured, the first one first. *)
Definition eager : BCA.oracle :=
  BCA.mkOracle
    (fun xs _ _ => (map (fun _ => 0) xs, map (fun _ => false) xs))
    (fun xs _ _ => map (map (fun q => 1 - q)) xs)
    true (fun _ => true) (fun _ x => x).

(** Never reports success; its gradient is [[-1, 3, -2]] for every
    sample. *)
Definition against_all : BCA.oracle :=
  BCA.mkOracle
    (fun xs _ _ => (map (fun _ => 0) xs, map (fun _ => false) xs))
    (fun xs _ _ => map (fun _ => [- (1); 3; - (2)]) xs)
    false (fun _ => false) (fun _ x => x).


(** Two steps of bit coordinate ascent against [eager]. *)
Definition eager_run : res pyval * world :=
  BCA._perturb eager [[0; 0; 0]] [1%Z] 2 1 false world0.

(** [BCA.perturb] against [eager]: one step per round, lambda from 1 to
    100 by factors of 10. *)
Definition eager_attack : res (option (batch * Q * nat)) * world :=
  BCA.perturb eager [[0; 0; 0]; [0; 1; 0]] [1%Z; 1%Z] 1 1 100 false 10 4
    world0.

(** [OrthogonalStepwiseMax.perturb] on a sample that already evades. *)
Definition evaded_run : res batch * world :=
  OSM.perturb library0 attack0 victim0 [[1; 0; 0]] [1%Z] 3 2 1 1 (1 # 100)
    world0.

End Mock.

(** * Properties *)

(** ** Comparisons and tensors *)

Lemma Qlt_bool_iff (x y : Q) : Qlt_bool x y = true <-> x < y.
Proof.
  unfold Qlt_bool. rewrite negb_true_iff. split; intro H.
  - apply Qnot_le_lt. intro Hle. apply Qle_bool_iff in Hle. congruence.
  - destruct (Qle_bool y x) eqn:E; [|reflexivity].
    apply Qle_bool_iff in E. exfalso. apply (Qlt_not_le _ _ H E).
Qed.

Lemma Qle_bool_false (x y : Q) : Qle_bool x y = false <-> y < x.
Proof.
  rewrite <- Qlt_bool_iff. unfold Qlt_bool.
  destruct (Qle_bool x y); simpl; split; congruence.
Qed.

Lemma Qlt_bool_false (x y : Q) : Qlt_bool x y = false <-> y <= x.
Proof.
  unfold Qlt_bool. rewrite negb_false_iff. apply Qle_bool_iff.
Qed.

Ltac qbool E :=
  first [ apply Qle_bool_iff in E | apply Qle_bool_false in E
        | apply Qlt_bool_iff in E | apply Qlt_bool_false in E ].

Lemma nth_map2 {A B C : Type} (f : A -> B -> C) (l : list A) (l' : list B)
  (n : nat) (da : A) (db : B) (dc : C) :
  (n < length l)%nat -> (n < length l')%nat ->
  nth n (map2 f l l') dc = f (nth n l da) (nth n l' db).
Proof.
  revert l' n. induction l as [|a l IH]; intros [|b l'] [|n] Hl Hl';
    simpl in *; try lia; [reflexivity|]. apply IH; lia.
Qed.

Lemma length_map2 {A B C : Type} (f : A -> B -> C) (l : list A) (l' : list B) :
  length (map2 f l l') = Nat.min (length l) (length l').
Proof.
  revert l'. induction l as [|a l IH]; intros [|b l']; simpl; auto.
Qed.

Lemma nth_map2_default {A B C : Type} (f : A -> B -> C) (l : list A)
  (l' : list B) (n : nat) (da : A) (db : B) (dc : C) :
  nth n (map2 f l l') dc = dc \/
  nth n (map2 f l l') dc = f (nth n l da) (nth n l' db).
Proof.
  destruct (Nat.lt_ge_cases n (Nat.min (length l) (length l'))) as [H|H].
  - right. apply nth_map2; lia.
  - left. apply nth_overflow. rewrite length_map2. exact H.
Qed.

(** ** The manipulation constraint model *)

Lemma trans_grads_at_feasible (m : Z) (g a : Q) :
  ~ Constraint.trans_grads_at m g a == 0 ->
  (a <= 1 # 2 /\ 0 <= g) \/ ((1 # 2) < a /\ Z.land 1 m <> 0%Z /\ g < 0).
Proof.
  unfold Constraint.trans_grads_at. intro H.
  destruct (Qle_bool a (1 # 2)) eqn:Ea; destruct (Qle_bool 0 g) eqn:Eg;
    destruct (Qlt_bool (1 # 2) a) eqn:Ea'; destruct (Qlt_bool g 0) eqn:Eg';
    repeat match goal with E : _ = _ :> bool |- _ => qbool E end;
    try (left; split; assumption);
    try (exfalso; lra);
    unfold b2z, b2q in H;
    change (1 * 1)%Z with 1%Z in H; change (0 * 1)%Z with 0%Z in H;
    change (1 * 1 * 0)%Z with 0%Z in H; change (0 * 1 * 0)%Z with 0%Z in H;
    rewrite ?Z.land_0_l in H.
  all: try (exfalso; apply H; destruct (Qle_bool 0 a); unfold inject_Z;
            simpl; ring).
  right. repeat split; try assumption.
  intro Hz. apply H. rewrite Hz. unfold inject_Z. ring.
Qed.

Lemma nth_trans_grads_row (mx : list Z) (g a : row) (j : nat) :
  nth j (Constraint.trans_grads_row mx g a) 0 = 0 \/
  nth j (Constraint.trans_grads_row mx g a) 0 =
    Constraint.trans_grads_at (nth j mx 0%Z) (nth j g 0) (nth j a 0).
Proof.
  revert g a j. induction mx as [|m mx IH]; intros [|gv g] [|av a] [|j];
    simpl; auto.
Qed.

Lemma grad4insertion_at_feasible (g a : Q) :
  ~ Constraint.grad4insertion_at g a == 0 -> a <= 1 # 2 /\ 0 < g.
Proof.
  unfold Constraint.grad4insertion_at. intro H.
  destruct (Qlt_bool 0 g) eqn:Eg; destruct (Qle_bool a (1 # 2)) eqn:Ea;
    repeat match goal with E : _ = _ :> bool |- _ => qbool E end;
    try (split; assumption);
    exfalso; apply H; unfold b2q; ring.
Qed.

(** C4: an entry of the tensor returned by [trans_grads] differs from zero
    only at a position where the value is at most 0.5 and the raw gradient
    is non-negative (insertion), or where the value exceeds 0.5, the
    manipulation mask marks the position and the raw gradient is negative
    (removal); every other entry is zero.  The insertion filter of
    [BCA._perturb] (line 79) obeys the insertion clause. *)
Theorem trans_grads_feasible (mx : list Z) (gradients adv_features : batch)
  (i j : nat) :
  let g := nth j (nth i gradients []) 0 in
  let a := nth j (nth i adv_features []) 0 in
  let m := nth j mx 0%Z in
  let insertion := a <= 1 # 2 /\ 0 <= g in
  let removal := (1 # 2) < a /\ Z.land 1 m <> 0%Z /\ g < 0 in
  let out := nth j (nth i (Constraint.trans_grads mx gradients adv_features) []) 0 in
  let out_bca := nth j (nth i (Constraint.grad4insertion gradients adv_features) []) 0 in
  (~ out == 0 -> insertion \/ removal) /\
  (~ (insertion \/ removal) -> out == 0) /\
  (~ out_bca == 0 -> insertion /\ 0 < g).
Proof.
  intros g a m insertion removal out out_bca.
  assert (H1 : ~ out == 0 -> insertion \/ removal).
  { subst out. unfold Constraint.trans_grads. intro H.
    destruct (nth_map2_default (Constraint.trans_grads_row mx) gradients
                adv_features i [] [] []) as [E|E]; rewrite E in H.
    - exfalso. apply H. destruct j; reflexivity.
    - destruct (nth_trans_grads_row mx (nth i gradients [])
                  (nth i adv_features []) j) as [E'|E']; rewrite E' in H.
      + exfalso. apply H. reflexivity.
      + apply trans_grads_at_feasible in H. exact H. }
  split; [exact H1|]. split.
  - intro Hn. destruct (Qeq_dec out 0) as [E|E]; [exact E|].
    exfalso. apply Hn. apply H1. exact E.
  - subst out_bca. unfold Constraint.grad4insertion. intro H.
    destruct (nth_map2_default (map2 Constraint.grad4insertion_at) gradients
                adv_features i [] [] []) as [E|E]; rewrite E in H.
    + exfalso. apply H. destruct j; reflexivity.
    + destruct (nth_map2_default Constraint.grad4insertion_at
                  (nth i gradients []) (nth i adv_features []) j 0 0 0)
        as [E'|E']; rewrite E' in H.
      * exfalso. apply H. reflexivity.
      * apply grad4insertion_at_feasible in H. destruct H as [Ha Hg].
        subst insertion g a. repeat split; try assumption.
        apply Qlt_le_weak. exact Hg.
Qed.

(** ** Random start *)

Lemma to_byte_0 (v : Q) : v == 0 -> Utils.to_byte v = 0%Z.
Proof.
  unfold Qeq, Utils.to_byte. simpl. intro H.
  assert (Qnum v = 0%Z) by lia. rewrite H0. reflexivity.
Qed.

Lemma to_byte_1 (v : Q) : v == 1 -> Utils.to_byte v = 1%Z.
Proof.
  unfold Qeq, Utils.to_byte. simpl. intro H.
  assert (E : Qnum v = Zpos (Qden v)) by lia. rewrite E.
  rewrite Z.quot_same by lia. reflexivity.
Qed.

Lemma to_byte_b2q (b : bool) : Utils.to_byte (b2q b) = b2z b.
Proof. destruct b; reflexivity. Qed.

(** C10: on a binary tensor, [rand_x] without sampling is the identity,
    and with sampling it returns a binary tensor of the same shape that is
    entrywise at least [x]: an entry is on exactly when it was on in [x]
    or the random draw exceeds the threshold (bitwise OR). *)
Theorem rand_x_binary (x u : batch) (rounding_threshold : Q) :
  Forall (Forall (fun v => v == 0 \/ v == 1)) x ->
  Forall2 (fun ur xr => length ur = length xr) u x ->
  Utils.rand_x x rounding_threshold false u = x /\
  length (Utils.rand_x x rounding_threshold true u) = length x /\
  forall i j : nat,
    (i < length x)%nat -> (j < length (nth i x []))%nat ->
    let xv := nth j (nth i x []) 0 in
    let uv := nth j (nth i u []) 0 in
    let ov := nth j (nth i (Utils.rand_x x rounding_threshold true u) []) 0 in
    length (nth i (Utils.rand_x x rounding_threshold true u) [])
      = length (nth i x []) /\
    (ov = 0 \/ ov = 1) /\ xv <= ov /\
    (ov = 1 <-> (xv == 1 \/ rounding_threshold < uv)).
Proof.
  intros Hbin Hshape. split; [reflexivity|].
  assert (Hlen : length u = length x).
  { clear Hbin. induction Hshape; simpl; congruence. }
  assert (Hrow : forall i, (i < length x)%nat ->
                   length (nth i u []) = length (nth i x [])).
  { clear Hbin Hlen. induction Hshape; intros [|i] Hi; simpl in *;
      try lia; auto. apply IHHshape. lia. }
  unfold Utils.rand_x. split.
  - rewrite length_map2, length_map. lia.
  - intros i j Hi Hj. cbv zeta.
    pose proof (Hrow i Hi) as Hr.
    set (G := fun r : Q => b2q (Qlt_bool rounding_threshold r)).
    set (F := fun r xv : Q =>
                inject_Z (Z.lor (Utils.to_byte r) (Utils.to_byte xv))).
    assert (Eout : nth i (map2 (map2 F) (map (map G) u) x) [] =
                   map2 F (map G (nth i u [])) (nth i x [])).
    { rewrite (nth_map2 (map2 F) _ _ i [] [] []).
      - f_equal. apply (map_nth (map G) u []).
      - rewrite length_map. lia.
      - exact Hi. }
    rewrite Eout. split.
    { rewrite length_map2, length_map. lia. }
    assert (Ev : nth j (map2 F (map G (nth i u [])) (nth i x [])) 0 =
                 F (G (nth j (nth i u []) 0)) (nth j (nth i x []) 0)).
    { rewrite (nth_map2 F _ _ j (G 0) 0 0).
      - f_equal. apply (map_nth G).
      - rewrite length_map. lia.
      - exact Hj. }
    rewrite Ev. clear Ev Eout.
    assert (Hx : nth j (nth i x []) 0 == 0 \/ nth j (nth i x []) 0 == 1).
    { rewrite Forall_forall in Hbin.
      assert (Hin : In (nth i x []) x) by (apply nth_In; exact Hi).
      specialize (Hbin _ Hin). rewrite Forall_forall in Hbin.
      apply Hbin. apply nth_In. exact Hj. }
    unfold F, G. rewrite to_byte_b2q.
    destruct (Qlt_bool rounding_threshold (nth j (nth i u []) 0)) eqn:Eu;
      qbool Eu; destruct Hx as [Hx|Hx];
      rewrite ?(to_byte_0 _ Hx), ?(to_byte_1 _ Hx); simpl;
      (split; [auto|]); (split; [rewrite Hx; unfold inject_Z; lra|]);
      split; intro H; auto; try discriminate.
    destruct H as [H|H]; [rewrite Hx in H; lra | lra].
Qed.

(** ** [torch.max] returns the first maximal entry *)

Lemma max_first_from_spec (L : row) :
  forall (l pre : row) (best : Q) (ib : nat),
    L = pre ++ l -> (ib < length pre)%nat -> nth ib L 0 = best ->
    (forall j, (j < length pre)%nat -> nth j L 0 <= best) ->
    (forall j, (j < ib)%nat -> nth j L 0 < best) ->
    let vp := max_first_from best ib (length pre) l in
    (snd vp < length L)%nat /\ nth (snd vp) L 0 = fst vp /\
    (forall j, (j < length L)%nat -> nth j L 0 <= fst vp) /\
    (forall j, (j < snd vp)%nat -> nth j L 0 < fst vp).
Proof.
  induction l as [|v l IH]; intros pre best ib HL Hib Hbest Hle Hlt; simpl.
  - rewrite app_nil_r in HL. subst L. repeat split; auto.
  - assert (HL' : L = (pre ++ [v]) ++ l) by (rewrite <- app_assoc; exact HL).
    assert (Hlen : length (pre ++ [v]) = S (length pre))
      by (rewrite length_app; simpl; lia).
    assert (Hv : nth (length pre) L 0 = v).
    { rewrite HL. rewrite app_nth2 by lia. rewrite Nat.sub_diag. reflexivity. }
    destruct (Qlt_bool best v) eqn:E; qbool E; rewrite <- Hlen.
    + apply IH; auto.
      * lia.
      * intros j Hj. rewrite Hlen in Hj.
        destruct (Nat.eq_dec j (length pre)) as [->|Hne].
        -- rewrite Hv. apply Qle_refl.
        -- apply Qle_trans with best; [apply Hle; lia | apply Qlt_le_weak, E].
      * intros j Hj. apply Qle_lt_trans with best; [apply Hle; lia | exact E].
    + apply IH; auto.
      * lia.
      * intros j Hj. rewrite Hlen in Hj.
        destruct (Nat.eq_dec j (length pre)) as [->|Hne].
        -- rewrite Hv. exact E.
        -- apply Hle. lia.
Qed.

Lemma torch_max_spec (l : row) (v : Q) (p : nat) :
  torch_max l = Some (v, p) ->
  (p < length l)%nat /\ nth p l 0 = v /\
  (forall j, (j < length l)%nat -> nth j l 0 <= v) /\
  (forall j, (j < p)%nat -> nth j l 0 < v).
Proof.
  destruct l as [|q l]; [discriminate|]. simpl. intro H. inversion H as [H'].
  pose proof (max_first_from_spec (q :: l) l [q] q 0%nat eq_refl) as Hs.
  simpl in Hs. rewrite H' in Hs. simpl in Hs. apply Hs; auto.
  - intros [|j] Hj; [apply Qle_refl | lia].
  - intros j Hj. lia.
Qed.

Lemma torch_max_some (l : row) :
  l <> [] -> exists v p, torch_max l = Some (v, p).
Proof.
  destruct l as [|q l]; [congruence|]. intros _. simpl.
  destruct (max_first_from q 0 1 l) as [v p]. eauto.
Qed.

(** ** Bit coordinate ascent: one step *)

Lemma nth_one_hot (n p j : nat) :
  (j < n)%nat -> nth j (one_hot n p) 0 = b2q (Nat.eqb j p).
Proof.
  intro H. unfold one_hot.
  rewrite (nth_indep _ 0 (b2q (Nat.eqb 0 p)))
    by (rewrite length_map, length_seq; exact H).
  rewrite (map_nth (fun k => b2q (Nat.eqb k p)) (seq 0 n) 0%nat j).
  rewrite seq_nth by exact H. reflexivity.
Qed.

Lemma length_one_hot (n p : nat) : length (one_hot n p) = n.
Proof. unfold one_hot. rewrite length_map, length_seq. reflexivity. Qed.

Lemma grad4insertion_at_on (g a : Q) :
  0 < g -> a <= 1 # 2 -> Constraint.grad4insertion_at g a == g.
Proof.
  intros Hg Ha. unfold Constraint.grad4insertion_at.
  apply Qlt_bool_iff in Hg. apply Qle_bool_iff in Ha. rewrite Hg, Ha.
  unfold b2q. ring.
Qed.

Lemma clamp01_unit (v : Q) : 0 <= clamp01 v /\ clamp01 v <= 1.
Proof.
  unfold clamp01.
  destruct (Qlt_bool v 0) eqn:E0; [split; lra|].
  destruct (Qlt_bool 1 v) eqn:E1; [split; lra|].
  qbool E0. qbool E1. split; assumption.
Qed.

Lemma clamp01_id (v : Q) : 0 <= v -> v <= 1 -> clamp01 v = v.
Proof.
  intros H0 H1. unfold clamp01.
  apply Qlt_bool_false in H0. apply Qlt_bool_false in H1.
  rewrite H0, H1. reflexivity.
Qed.

Lemma clamp01_on (v : Q) : 0 <= v -> clamp01 (v + 1) == 1.
Proof.
  intro H. unfold clamp01.
  destruct (Qlt_bool (v + 1) 0) eqn:E0; [qbool E0; lra|].
  destruct (Qlt_bool 1 (v + 1)) eqn:E1; [reflexivity|].
  qbool E1. lra.
Qed.

Lemma update_row_flip (a g : row) :
  length g = length a ->
  (exists j, (j < length a)%nat /\ 0 < nth j g 0 /\ nth j a 0 <= 1 # 2) ->
  exists p : nat,
    (p < length a)%nat /\ 0 < nth p g 0 /\ nth p a 0 <= 1 # 2 /\
    (forall j, (j < length a)%nat -> 0 < nth j g 0 -> nth j a 0 <= 1 # 2 ->
               nth j g 0 <= nth p g 0) /\
    (forall j, (j < p)%nat -> 0 < nth j g 0 -> nth j a 0 <= 1 # 2 ->
               nth j g 0 < nth p g 0) /\
    BCA.update_row a g false
      = Ok (map clamp01 (map2 Qplus a (one_hot (length a) p))).
Proof.
  intros Hlen [j0 [Hj0 [Hg0 Ha0]]].
  set (g4 := map2 Constraint.grad4insertion_at g a).
  assert (Hl4 : length g4 = length a)
    by (unfold g4; rewrite length_map2; lia).
  assert (Hn4 : forall j, (j < length a)%nat ->
            nth j g4 0 = Constraint.grad4insertion_at (nth j g 0) (nth j a 0)).
  { intros j Hj. unfold g4. apply nth_map2; lia. }
  destruct (torch_max_some g4) as [v [p Hmax]].
  { intro E. rewrite E in Hl4. simpl in Hl4. lia. }
  destruct (torch_max_spec _ _ _ Hmax) as [Hp [Hv [Hall Hfirst]]].
  rewrite Hl4 in Hp, Hall.
  assert (Hvpos : 0 < v).
  { apply Qlt_le_trans with (nth j0 g4 0); [|apply Hall; exact Hj0].
    rewrite Hn4 by exact Hj0. rewrite grad4insertion_at_on; assumption. }
  assert (Hfeas : nth p a 0 <= 1 # 2 /\ 0 < nth p g 0).
  { apply grad4insertion_at_feasible. rewrite <- Hn4 by exact Hp.
    rewrite Hv. intro E. rewrite E in Hvpos. lra. }
  destruct Hfeas as [Hpa Hpg].
  assert (Hvg : v == nth p g 0).
  { rewrite <- Hv, Hn4 by exact Hp. apply grad4insertion_at_on; assumption. }
  exists p. repeat split; try assumption.
  - intros j Hj Hg Ha. rewrite <- Hvg.
    rewrite <- (grad4insertion_at_on _ _ Hg Ha), <- Hn4 by exact Hj.
    apply Hall. exact Hj.
  - intros j Hj Hg Ha. rewrite <- Hvg.
    rewrite <- (grad4insertion_at_on _ _ Hg Ha), <- Hn4 by lia.
    apply Hfirst. exact Hj.
  - unfold BCA.update_row. fold g4. rewrite Hmax, Hl4. reflexivity.
Qed.

Lemma nth_flip (a : row) (p j : nat) :
  (j < length a)%nat ->
  nth j (map clamp01 (map2 Qplus a (one_hot (length a) p))) 0
  = clamp01 (nth j a 0 + b2q (Nat.eqb j p)).
Proof.
  intro Hj. change 0 with (clamp01 0) at 1. rewrite map_nth.
  rewrite (nth_map2 Qplus _ _ j 0 0 0); rewrite ?length_one_hot; try lia.
  rewrite nth_one_hot by exact Hj. reflexivity.
Qed.

Lemma update_rows (adv_x grad : batch) (done : list bool) (adv_x' : batch) :
  BCA.update adv_x grad done = Ok adv_x' ->
  length adv_x' = length adv_x /\ length grad = length adv_x /\
  length done = length adv_x /\
  forall i, (i < length adv_x)%nat ->
    BCA.update_row (nth i adv_x []) (nth i grad []) (nth i done false)
    = Ok (nth i adv_x' []).
Proof.
  revert grad done adv_x'.
  induction adv_x as [|a adv IH]; intros [|g grad] [|d done] adv' H;
    simpl in H; try discriminate.
  - inversion H. repeat split; auto. intros i Hi. simpl in Hi. lia.
  - destruct (BCA.update_row a g d) as [r|e] eqn:Er; [|discriminate].
    destruct (BCA.update adv grad done) as [rs|e] eqn:Ers; [|discriminate].
    inversion H; subst adv'. destruct (IH _ _ _ Ers) as [L1 [L2 [L3 Hn]]].
    simpl. repeat split; try lia.
    intros [|i] Hi; [exact Er|]. apply Hn. lia.
Qed.

Lemma update_total (adv_x grad : batch) (done : list bool) :
  length grad = length adv_x -> length done = length adv_x ->
  (forall i, (i < length adv_x)%nat -> nth i adv_x [] <> [] /\
     length (nth i grad []) = length (nth i adv_x [])) ->
  exists adv_x', BCA.update adv_x grad done = Ok adv_x'.
Proof.
  revert grad done.
  induction adv_x as [|a adv IH]; intros [|g grad] [|d done] Hg Hd Hrows;
    simpl in Hg, Hd; try lia.
  - eexists; reflexivity.
  - destruct (Hrows 0%nat ltac:(simpl; lia)) as [Hne Hl]. simpl in Hne, Hl.
    destruct (IH grad done) as [rs Hrs]; try lia.
    { intros i Hi. apply (Hrows (S i)). simpl. lia. }
    simpl. unfold BCA.update_row at 1.
    destruct (torch_max_some (map2 Constraint.grad4insertion_at g a))
      as [v [p Hmax]].
    { intro E. apply (f_equal (@length Q)) in E.
      rewrite length_map2 in E. simpl in E.
      destruct a; [congruence|]. simpl in *. lia. }
    rewrite Hmax, Hrs. eexists; reflexivity.
Qed.

(** C1 (the code departs from the claim): in a step of [BCA._perturb], a
    sample that is not done and has a feasible insertion position (positive
    gradient, value at most 0.5) is updated by a one-hot perturbation at
    the first position [p] of maximal positive gradient among the feasible
    ones, and the sum is clamped into [[0,1]]: entry [p] becomes 1 and no
    other entry is raised.  With a 10-dimensional all-zero vector, lambda
    1 and an oracle whose gradient favours dimension 3 and then dimension
    7, two steps return [[0,0,0,1,0,0,0,1,0,0]].  But a sample that is not
    done and has no feasible position is updated too: for [[0,1,0]] with
    gradient [[-1,3,-2]] no position has a positive gradient and a value
    of at most 0.5, and the step switches feature 0 on. *)
Theorem bca_step_one_hot :
  (forall a g : row,
      length g = length a ->
      (exists j, (j < length a)%nat /\ 0 < nth j g 0 /\ nth j a 0 <= 1 # 2) ->
      exists (p : nat) (r : row),
        BCA.update_row a g false = Ok r /\
        (p < length a)%nat /\ 0 < nth p g 0 /\ nth p a 0 <= 1 # 2 /\
        (forall j, (j < length a)%nat -> 0 < nth j g 0 ->
                   nth j a 0 <= 1 # 2 -> nth j g 0 <= nth p g 0) /\
        (forall j, (j < p)%nat -> 0 < nth j g 0 ->
                   nth j a 0 <= 1 # 2 -> nth j g 0 < nth p g 0) /\
        length r = length a /\
        (forall j, (j < length a)%nat ->
                   nth j r 0 = clamp01 (nth j a 0 + b2q (Nat.eqb j p))) /\
        (0 <= nth p a 0 -> nth p r 0 == 1) /\
        unit_row r) /\
  (forall (adv_x grad : batch) (done : list bool) (adv_x' : batch) (i : nat),
      BCA.update adv_x grad done = Ok adv_x' ->
      (i < length adv_x)%nat ->
      BCA.update_row (nth i adv_x []) (nth i grad []) (nth i done false)
      = Ok (nth i adv_x' [])) /\
  fst (BCA._perturb Mock.favour_3_then_7 [Mock.zeros10] [1%Z] 2 1 false world0)
  = Ok (PyTensor [[0; 0; 0; 1; 0; 0; 0; 1; 0; 0]]) /\
  fst (BCA._perturb Mock.first_3_later_7 [Mock.zeros10] [1%Z] 2 1 false world0)
  = Ok (PyTensor [[0; 0; 0; 1; 0; 0; 0; 1; 0; 0]]) /\
  (forall j, (j < 3)%nat ->
     ~ (0 < nth j [- (1); 3; - (2)] 0 /\ nth j [0; 1; 0] 0 <= 1 # 2)) /\
  BCA.update_row [0; 1; 0] [- (1); 3; - (2)] false = Ok [1; 1; 0] /\
  fst (BCA._perturb Mock.against_all [[0; 1; 0]] [1%Z] 1 1 false world0)
  = Ok (PyTensor [[1; 1; 0]]).
Proof.
  split; [|split; [|split; [|split; [|split; [|split]]]]];
    try (vm_compute; reflexivity).
  - intros a g Hlen Hex.
    destruct (update_row_flip a g Hlen Hex)
      as [p [Hp [Hg [Ha [Hmax [Hfirst Hupd]]]]]].
    exists p, (map clamp01 (map2 Qplus a (one_hot (length a) p))).
    repeat split; try assumption.
    + rewrite length_map, length_map2, length_one_hot. lia.
    + intros j Hj. apply nth_flip. exact Hj.
    + intro H0. rewrite nth_flip by exact Hp. rewrite Nat.eqb_refl.
      apply clamp01_on. exact H0.
    + unfold unit_row. apply Forall_forall. intros v Hin.
      apply in_map_iff in Hin. destruct Hin as [u [<- _]].
      apply clamp01_unit.
  - intros adv_x grad done adv_x' i H Hi.
    apply (update_rows _ _ _ _ H). exact Hi.
  - intros [|[|[|j]]] Hj [Hg Ha]; simpl in Hg, Ha; try lia;
      first [discriminate Hg | apply Ha; reflexivity].
Qed.

(** C8 (the code departs from the claim): a sample that is not done and
    has no feasible insertion position is still perturbed.  The filtered
    gradient is zero everywhere, [torch.max] answers index 0, and the
    one-hot update switches feature 0 on although its gradient is
    negative. *)
Theorem bca_no_direction_flips_first :
  map2 Constraint.grad4insertion_at [- (1); 3] [0; 1] = [0; 0] /\
  BCA.update_row [0; 1] [- (1); 3] false = Ok [1; 1] /\
  fst (BCA._perturb
         (BCA.mkOracle (fun xs _ _ => (map (fun _ => 0) xs,
                                       map (fun _ => false) xs))
            (fun xs _ _ => map (fun _ => [- (1); 3]) xs)
            false (fun _ => false) (fun _ x => x))
         [[0; 1]] [1%Z] 1 1 false world0)
  = Ok (PyTensor [[1; 1]]).
Proof. repeat split; vm_compute; reflexivity. Qed.

(** C9 (amended): on a batch of zero rows, [BCA._perturb] and
    [OrthogonalStepwiseMax._perturb] return an empty Python list, raise
    nothing, ask the oracle nothing and draw no random tensor. *)
Theorem perturb_empty_batch :
  (forall (o : BCA.oracle) (label : list Z) (m : nat) (lambda_ : Q)
          (use_sample : bool) (w : world),
      BCA._perturb o [] label m lambda_ use_sample w = (Ok (PyList []), w)) /\
  (forall (lib : OSM.library) (a : OSM.attack) (v : OSM.victim)
          (label : list Z) (steps : Z) (sl_l1 sl_l2 sl_linf : Q) (w : world),
      OSM._perturb lib a v [] label steps sl_l1 sl_l2 sl_linf w
      = (Ok (PyList []), w)).
Proof. split; intros; reflexivity. Qed.

(** What [_perturb] hands back for a batch of zero rows is a list, not the
    tensor it was given. *)
Lemma perturb_empty_batch_not_input :
  fst (BCA._perturb Mock.favour_3_then_7 [] [] 10 1 false world0)
  = Ok (PyList []) /\
  fst (BCA._perturb Mock.favour_3_then_7 [] [] 10 1 false world0)
  <> Ok (PyTensor []).
Proof. split; [reflexivity | discriminate]. Qed.

(** ** Rounding to doubles *)

Lemma pow2_pos (e : Z) : 0 < Float.pow2 e.
Proof. unfold Float.pow2. apply Qpower_0_lt. reflexivity. Qed.

Lemma pow2_plus (a b : Z) : Float.pow2 (a + b) == Float.pow2 a * Float.pow2 b.
Proof. unfold Float.pow2. apply Qpower_plus. discriminate. Qed.

Lemma pow2_Z (n : Z) : (0 <= n)%Z -> Float.pow2 n == inject_Z (2 ^ n).
Proof.
  intro H. unfold Float.pow2. rewrite (Zpower_Qpower 2 n H). reflexivity.
Qed.

Lemma pow2_lt_inv (a b : Z) : Float.pow2 a < Float.pow2 b -> (a < b)%Z.
Proof.
  intro H. apply (Qpower_lt_compat_l_inv 2); [exact H | reflexivity].
Qed.

Lemma ilog2_spec (q : Q) :
  0 < q ->
  Float.pow2 (Float.ilog2 q) <= q /\ q < Float.pow2 (Float.ilog2 q + 1).
Proof.
  intro Hq. destruct q as [n d]. 
  assert (Hn : (0 < n)%Z).
  { unfold Qlt in Hq. simpl in Hq. lia. }
  unfold Float.ilog2. cbn [Qnum Qden].
  set (a := Z.log2 n). set (b := Z.log2 (Z.pos d)).
  destruct (Z.log2_spec n Hn) as [Ha1 Ha2]. fold a in Ha1, Ha2.
  destruct (Z.log2_spec (Z.pos d) ltac:(lia)) as [Hb1 Hb2].
  fold b in Hb1, Hb2.
  assert (Ha0 : (0 <= a)%Z) by apply Z.log2_nonneg.
  assert (Hb0 : (0 <= b)%Z) by apply Z.log2_nonneg.
  pose proof (pow2_Z a Ha0) as EA. pose proof (pow2_Z b Hb0) as EB.
  pose proof (pow2_pos a) as PA. pose proof (pow2_pos b) as PB.
  assert (A1 : Float.pow2 a <= inject_Z n).
  { rewrite EA. rewrite <- Zle_Qle. exact Ha1. }
  assert (A2 : inject_Z n < 2 * Float.pow2 a).
  { rewrite EA. change 2 with (inject_Z 2). rewrite <- inject_Z_mult.
    rewrite <- Zlt_Qlt. replace (2 * 2 ^ a)%Z with (2 ^ Z.succ a)%Z
      by (rewrite Z.pow_succ_r by lia; reflexivity). exact Ha2. }
  assert (B1 : Float.pow2 b <= inject_Z (Z.pos d)).
  { rewrite EB. rewrite <- Zle_Qle. exact Hb1. }
  assert (B2 : inject_Z (Z.pos d) < 2 * Float.pow2 b).
  { rewrite EB. change 2 with (inject_Z 2). rewrite <- inject_Z_mult.
    rewrite <- Zlt_Qlt. replace (2 * 2 ^ b)%Z with (2 ^ Z.succ b)%Z
      by (rewrite Z.pow_succ_r by lia; reflexivity). exact Hb2. }
  assert (Eq : (n # d) * inject_Z (Z.pos d) == inject_Z n).
  { rewrite (Qmake_Qdiv n d). field. discriminate. }
  set (q := n # d) in *. set (N := inject_Z n) in *.
  set (D := inject_Z (Z.pos d)) in *.
  assert (EC : Float.pow2 (a - b) * Float.pow2 b == Float.pow2 a).
  { rewrite <- pow2_plus. replace (a - b + b)%Z with a by lia. reflexivity. }
  assert (EC1 : Float.pow2 (a - b + 1) == 2 * Float.pow2 (a - b)).
  { rewrite pow2_plus. change (Float.pow2 1) with 2. ring. }
  assert (EC2 : 2 * Float.pow2 (a - b - 1) == Float.pow2 (a - b)).
  { replace (a - b)%Z with ((a - b - 1) + 1)%Z at 2 by lia. rewrite pow2_plus.
    change (Float.pow2 1) with 2. ring. }
  pose proof (pow2_pos (a - b)) as PC.
  pose proof (pow2_pos (a - b - 1)) as PC'.
  set (P := Float.pow2 (a - b)) in *.
  set (A := Float.pow2 a) in *. set (B := Float.pow2 b) in *.
  destruct (Qle_bool P q) eqn:E.
  - apply Qle_bool_iff in E. split; [exact E|]. rewrite EC1.
    destruct (Qlt_le_dec q (2 * P)) as [H|H]; [exact H|exfalso].
    assert (0 <= (q - 2 * P) * D) by (apply Qmult_le_0_compat; lra).
    assert (0 <= P * (D - B)) by (apply Qmult_le_0_compat; lra).
    lra.
  - assert (Hlt : q < P).
    { destruct (Qlt_le_dec q P) as [H|H]; [exact H|].
      apply Qle_bool_iff in H. congruence. }
    replace (a - b - 1 + 1)%Z with (a - b)%Z by lia. fold P.
    split; [|exact Hlt].
    set (P' := Float.pow2 (a - b - 1)) in *.
    destruct (Qlt_le_dec q P') as [H|H]; [exfalso|exact H].
    assert (0 < (P' - q) * D) by (apply Qmult_lt_0_compat; lra).
    assert (0 <= P' * (2 * B - D)) by (apply Qmult_le_0_compat; lra).
    assert (2 * P' * B == A) by (rewrite EC2; exact EC).
    lra.
Qed.

Lemma ilog2_mono (q d : Q) :
  0 < q -> q <= d -> (Float.ilog2 q <= Float.ilog2 d)%Z.
Proof.
  intros Hq Hle.
  destruct (ilog2_spec q Hq) as [H1 _].
  destruct (ilog2_spec d ltac:(lra)) as [_ H2].
  assert (H : Float.pow2 (Float.ilog2 q) < Float.pow2 (Float.ilog2 d + 1))
    by lra.
  apply pow2_lt_inv in H. lia.
Qed.

Lemma rne_le (x : Q) (N : Z) : x <= inject_Z N -> (Float.rne x <= N)%Z.
Proof.
  intro H. unfold Float.rne.
  pose proof (Qfloor_le x) as Hf. pose proof (Qlt_floor x) as Hc.
  set (f := Qfloor x) in *.
  destruct (Z_lt_le_dec f N) as [Hlt|Hge].
  - destruct (Qcompare _ _); [destruct (Z.even f)| |]; lia.
  - assert (HfN : inject_Z N <= inject_Z f) by (rewrite <- Zle_Qle; exact Hge).
    assert (E : x - inject_Z f < 1 # 2) by lra.
    destruct (Qcompare (x - inject_Z f) (1 # 2)) eqn:C.
    + apply Qeq_alt in C. lra.
    + rewrite Zle_Qle. lra.
    + apply Qgt_alt in C. lra.
Qed.

Lemma rne_ge (x : Q) (N : Z) : inject_Z N <= x -> (N <= Float.rne x)%Z.
Proof.
  intro H. unfold Float.rne.
  assert (Hf : (N <= Qfloor x)%Z).
  { rewrite <- (Qfloor_Z N). apply Qfloor_resp_le. exact H. }
  destruct (Qcompare _ _); [destruct (Z.even _)| |]; lia.
Qed.

Lemma round_pos_nonneg (q : Q) : 0 < q -> 0 <= Float.round_pos q.
Proof.
  intro Hq. unfold Float.round_pos.
  set (e := Z.max _ _). pose proof (pow2_pos e) as Pe.
  destruct (Qle_bool _ _).
  - apply Qlt_le_weak, pow2_pos.
  - rewrite Qred_correct. apply Qmult_le_0_compat; [|lra].
    change 0 with (inject_Z 0). rewrite <- Zle_Qle. apply rne_ge.
    change (inject_Z 0) with 0. apply Qle_shift_div_l; lra.
Qed.

Lemma round_nonneg (q : Q) : 0 <= q -> 0 <= Float.round q.
Proof.
  intro Hq. unfold Float.round.
  destruct (Qcompare q 0) eqn:E.
  - lra.
  - apply Qlt_alt in E. lra.
  - apply Qgt_alt in E. apply round_pos_nonneg. exact E.
Qed.

Lemma round_pos_le_inf (q : Q) : Float.round_pos q <= Float.inf.
Proof.
  unfold Float.round_pos. set (r := _ * _).
  destruct (Qle_bool Float.inf r) eqn:E; [lra|].
  rewrite Qred_correct.
  destruct (Qlt_le_dec r Float.inf) as [H|H]; [lra|].
  apply Qle_bool_iff in H. congruence.
Qed.

Lemma round_pos_le (q d : Q) :
  0 < q -> q <= d -> Float.round_pos d == d -> Float.round_pos q <= d.
Proof.
  intros Hq Hle Hd.
  assert (Hd0 : 0 < d) by lra.
  unfold Float.round_pos in Hd.
  set (ed := Z.max (Float.ilog2 d - 52) (-1074)) in *.
  set (md := Float.rne (d / Float.pow2 ed)) in *.
  destruct (Qle_bool Float.inf (inject_Z md * Float.pow2 ed)) eqn:Ed.
  - rewrite <- Hd. apply round_pos_le_inf.
  - rewrite Qred_correct in Hd.
    assert (Hdlt : d < Float.inf).
    { destruct (Qlt_le_dec d Float.inf) as [H|H]; [exact H|].
      rewrite <- Hd in H. apply Qle_bool_iff in H. congruence. }
    unfold Float.round_pos.
    set (eq := Z.max (Float.ilog2 q - 52) (-1074)).
    set (mq := Float.rne (q / Float.pow2 eq)).
    assert (He : (eq <= ed)%Z).
    { pose proof (ilog2_mono q d Hq Hle). unfold eq, ed. lia. }
    pose proof (pow2_pos eq) as Pq. pose proof (pow2_pos ed) as Pd.
    assert (Hsplit : Float.pow2 ed
                     == inject_Z (2 ^ (ed - eq)) * Float.pow2 eq).
    { rewrite <- pow2_Z by lia. rewrite <- pow2_plus.
      replace (ed - eq + eq)%Z with ed by lia. reflexivity. }
    assert (HN : d == inject_Z (md * 2 ^ (ed - eq)) * Float.pow2 eq).
    { rewrite inject_Z_mult. rewrite <- Hd at 1. rewrite Hsplit. ring. }
    assert (Hm : (mq <= md * 2 ^ (ed - eq))%Z).
    { apply rne_le. apply Qle_shift_div_r; [exact Pq|]. rewrite <- HN.
      exact Hle. }
    assert (Hr : inject_Z mq * Float.pow2 eq <= d).
    { rewrite HN. apply Qmult_le_compat_r; [|lra].
      rewrite <- Zle_Qle. exact Hm. }
    destruct (Qle_bool Float.inf (inject_Z mq * Float.pow2 eq)) eqn:Eq.
    + apply Qle_bool_iff in Eq. lra.
    + rewrite Qred_correct. exact Hr.
Qed.

Lemma round_le_float (q d : Q) :
  0 <= q -> q <= d -> Float.round d == d -> Float.round q <= d.
Proof.
  intros Hq Hle Hd. unfold Float.round at 1.
  destruct (Qcompare q 0) eqn:E.
  - lra.
  - apply Qlt_alt in E. lra.
  - apply Qgt_alt in E. unfold Float.round in Hd.
    destruct (Qcompare d 0) eqn:E'.
    + apply Qeq_alt in E'. lra.
    + apply Qlt_alt in E'. lra.
    + apply round_pos_le; assumption.
Qed.

Lemma inf_gt_1 : 1 < Float.inf.
Proof.
  unfold Float.inf, Float.pow2. apply Qpower_1_lt; [reflexivity | lia].
Qed.

(** A product with a factor in [(0, 1]] does not leave the range below a
    double. *)
Lemma mul_le_float (lam b d : Q) :
  0 <= lam -> lam <= d -> Float.is_float d -> 0 < b -> b <= 1 ->
  0 <= Float.mul lam b /\ Float.mul lam b <= d.
Proof.
  intros Hl Hle Hd Hb0 Hb1. unfold Float.mul.
  pose proof inf_gt_1 as Hinf.
  assert (Hp : 0 <= lam * b) by (apply Qmult_le_0_compat; lra).
  assert (Hq : lam * b <= lam).
  { assert (0 <= lam * (1 - b)) by (apply Qmult_le_0_compat; lra). lra. }
  destruct (Qle_bool Float.inf (Qabs lam) || Qle_bool Float.inf (Qabs b))
    eqn:E.
  - apply orb_true_iff in E. destruct E as [E|E]; apply Qle_bool_iff in E.
    + rewrite Qabs_pos in E by exact Hl.
      destruct (Qcompare (lam * b) 0) eqn:C.
      * split; lra.
      * apply Qlt_alt in C. lra.
      * split; lra.
    + rewrite Qabs_pos in E by lra. lra.
  - split; [apply round_nonneg; exact Hp|].
    apply round_le_float; [exact Hp | lra | exact Hd].
Qed.

(** ** The lambda loop of [BCA.perturb] *)

Lemma lambda_loop_S (o : BCA.oracle) (label : list Z) (m : nat)
  (max_lambda_ : Q) (use_sample : bool) (base : Q) (fuel : nat) (lambda_ : Q)
  (adv_x : batch) (rounds : nat) :
  BCA.lambda_loop o label m max_lambda_ use_sample base (S fuel) lambda_
    adv_x rounds
  = if Qle_bool lambda_ max_lambda_ then
      _ <- ask (QGetLoss adv_x lambda_) ;;
      let done := snd (BCA.get_loss o adv_x label lambda_) in
      if all_true done then ret (Some (adv_x, lambda_, S rounds))
      else
        let not_done := map negb done in
        pert_x <- BCA._perturb o (masked_select adv_x not_done)
                    (masked_select label not_done) m lambda_ use_sample ;;
        adv_x' <- of_option RuntimeError
                    (masked_assign adv_x not_done (rows_of pert_x)) ;;
        let lambda_' := Float.mul lambda_ base in
        if negb (BCA.check_lambda o lambda_')
        then ret (Some (adv_x', lambda_', S rounds))
        else BCA.lambda_loop o label m max_lambda_ use_sample base fuel
               lambda_' adv_x' (S rounds)
    else ret (Some (adv_x, lambda_, rounds)).
Proof. reflexivity. Qed.

Section LambdaLoop.

Variables (o : BCA.oracle) (label : list Z) (m : nat).
Variables (max_lambda_ base : Q) (use_sample : bool).

Let loop := BCA.lambda_loop o label m max_lambda_ use_sample base.

Lemma lambda_loop_post (f : nat) :
  forall (lam : Q) (adv_x : batch) (r : nat) (w : world),
    max_lambda_ < Float.escalate base lam f ->
    loop_post o label max_lambda_ base lam r f
      (fst (loop (S f) lam adv_x r w)).
Proof.
  induction f as [|f IH]; intros lam adv_x r w Hmax.
  - assert (Hgt : max_lambda_ < lam) by exact Hmax.
    unfold loop. rewrite lambda_loop_S. apply Qle_bool_false in Hgt.
    rewrite Hgt. unfold loop_post, ret; cbn [fst].
    split; [lia|]. split; [lia|]. right. rewrite Nat.sub_diag.
    split; [reflexivity | left; apply Qle_bool_false; exact Hgt].
  - unfold loop. rewrite lambda_loop_S.
    destruct (Qle_bool lam max_lambda_) eqn:Ele.
    + unfold bind at 1. unfold ask at 1. cbn beta iota zeta.
      destruct (all_true (snd (BCA.get_loss o adv_x label lam))) eqn:Edone.
      * unfold loop_post, ret; cbn [fst]. split; [lia|]. split; [lia|]. left.
        replace (S r - r - 1)%nat with 0%nat by lia.
        split; [lia|]. split; [reflexivity|].
        split; [apply Qle_bool_iff; exact Ele | exact Edone].
      * unfold bind at 1.
        destruct (BCA._perturb o _ _ m lam use_sample _) as [[pert|e] w1];
          [|exact I].
        unfold bind at 1.
        destruct (of_option RuntimeError _ w1) as [[adv'|e] w2]; [|exact I].
        destruct (negb (BCA.check_lambda o (Float.mul lam base))) eqn:Echk.
        -- unfold loop_post, ret; cbn [fst].
           split; [lia|]. split; [lia|]. right.
           replace (S r - r)%nat with 1%nat by lia.
           split; [reflexivity|]. right. apply negb_true_iff. exact Echk.
        -- specialize (IH (Float.mul lam base) adv' (S r) w2 Hmax).
           fold loop.
           destruct (fst (loop (S f) (Float.mul lam base) adv' (S r) w2))
             as [[[[a1 l1] r1]|]|e]; unfold loop_post in IH |- *; auto.
           destruct IH as [Hr0 [Hr [[Hlt [El [Hle Hd]]]|[El Hex]]]].
           ++ split; [lia|]. split; [lia|]. left. split; [lia|].
              split; [|split; assumption].
              rewrite El.
              replace (r1 - r - 1)%nat with (S (r1 - S r - 1)) by lia.
              reflexivity.
           ++ split; [lia|]. split; [lia|].
              right. split; [|exact Hex]. rewrite El.
              replace (r1 - r)%nat with (S (r1 - S r)) by lia.
              reflexivity.
    + unfold loop_post, ret; cbn [fst]. split; [lia|]. split; [lia|]. right.
      rewrite Nat.sub_diag.
      split; [reflexivity | left; apply Qle_bool_false; exact Ele].
Qed.

End LambdaLoop.



(** ** Samples that are done stay as they are *)

Lemma Qplus_0_r_eq (a : Q) : a + 0 = a.
Proof.
  destruct a as [n d]. unfold Qplus. simpl.
  rewrite Z.mul_1_r, Z.add_0_r, Pos.mul_1_r. reflexivity.
Qed.

Lemma map2_plus_zeros (a : row) (z : row) :
  length z = length a -> Forall (fun v => v = 0) z -> map2 Qplus a z = a.
Proof.
  revert z. induction a as [|v a IH]; intros [|q z] Hl Hz; simpl in *;
    try lia; [reflexivity|].
  inversion Hz; subst. rewrite Qplus_0_r_eq. f_equal. apply IH; [lia|assumption].
Qed.

Lemma map_clamp01_unit (a : row) : unit_row a -> map clamp01 a = a.
Proof.
  unfold unit_row. induction 1 as [|v a [H0 H1] _ IH]; simpl; [reflexivity|].
  rewrite clamp01_id by assumption. f_equal. exact IH.
Qed.

Lemma update_row_done (a g r : row) :
  length g = length a -> BCA.update_row a g true = Ok r -> r = map clamp01 a.
Proof.
  intros Hl. unfold BCA.update_row.
  destruct (torch_max _) as [[v p]|]; [|discriminate].
  intro H. inversion H. f_equal. apply map2_plus_zeros.
  - rewrite length_map, length_one_hot, length_map2. lia.
  - apply Forall_forall. intros q Hin. apply in_map_iff in Hin.
    destruct Hin as [u [Hu _]]. congruence.
Qed.

Lemma update_row_unit (a g r : row) (d : bool) :
  BCA.update_row a g d = Ok r -> unit_row r.
Proof.
  unfold BCA.update_row. destruct (torch_max _) as [[v p]|]; [|discriminate].
  intro H. inversion H. apply Forall_forall. intros q Hin.
  apply in_map_iff in Hin. destruct Hin as [u [<- _]]. apply clamp01_unit.
Qed.

Lemma Forall_nth_rows {A : Type} (P : A -> Prop) (l : list A) (d : A) :
  (forall i, (i < length l)%nat -> P (nth i l d)) -> Forall P l.
Proof.
  intro H. apply Forall_forall. intros x Hin.
  destruct (In_nth l x d Hin) as [i [Hi <-]]. apply H. exact Hi.
Qed.

Lemma Forall_nth_row {A : Type} (P : A -> Prop) (l : list A) (d : A) (i : nat) :
  Forall P l -> (i < length l)%nat -> P (nth i l d).
Proof.
  intros H Hi. rewrite Forall_forall in H. apply H. apply nth_In. exact Hi.
Qed.

Lemma update_unit (adv_x grad : batch) (done : list bool) (adv_x' : batch) :
  BCA.update adv_x grad done = Ok adv_x' -> unit_batch adv_x'.
Proof.
  intro H. destruct (update_rows _ _ _ _ H) as [L1 [_ [_ Hn]]].
  apply (Forall_nth_rows _ _ []). intros i Hi.
  apply (update_row_unit _ _ _ _ (Hn i ltac:(lia))).
Qed.

Lemma masked_assign_keep {A : Type} (t : list A) (mask : list bool)
  (v t' : list A) (d : A) :
  masked_assign t mask v = Some t' ->
  length t' = length t /\ length mask = length t /\
  forall i, (i < length t)%nat -> nth i mask true = false ->
            nth i t' d = nth i t d.
Proof.
  revert mask v t'. induction t as [|a t IH]; intros [|b mask] v t' H;
    simpl in H; try discriminate.
  - destruct v; [|discriminate]. inversion H. repeat split.
  - destruct b.
    + destruct v as [|r v]; [discriminate|].
      destruct (masked_assign t mask v) as [rs|] eqn:E; [|discriminate].
      inversion H; subst. destruct (IH _ _ _ E) as [L1 [L2 Hn]].
      simpl. repeat split; try lia.
      intros [|i] Hi Hm; simpl in *; [discriminate|]. apply Hn; [lia|exact Hm].
    + destruct (masked_assign t mask v) as [rs|] eqn:E; [|discriminate].
      inversion H; subst. destruct (IH _ _ _ E) as [L1 [L2 Hn]].
      simpl. repeat split; try lia.
      intros [|i] Hi Hm; simpl in *; [reflexivity|]. apply Hn; [lia|exact Hm].
Qed.

Lemma nth_map2_succ (succ : row -> Z -> bool) (xs : batch) (ls : list Z)
  (i : nat) :
  (i < length (map2 succ xs ls))%nat ->
  nth i (map2 succ xs ls) false = succ (nth i xs []) (nth i ls 0%Z).
Proof.
  rewrite length_map2. intro H. apply nth_map2; lia.
Qed.

Lemma same_shape_nth (x y : batch) (i : nat) :
  same_shape x y -> length (nth i x []) = length (nth i y []).
Proof.
  intro H. revert i. induction H; intros [|i]; simpl; auto.
Qed.

Lemma update_keeps_done (adv_x grad : batch) (done : list bool)
  (adv_x' : batch) (i : nat) :
  BCA.update adv_x grad done = Ok adv_x' ->
  (i < length adv_x)%nat ->
  nth i done false = true ->
  length (nth i grad []) = length (nth i adv_x []) ->
  nth i adv_x' [] = map clamp01 (nth i adv_x []) /\
  (unit_row (nth i adv_x []) -> nth i adv_x' [] = nth i adv_x []).
Proof.
  intros H Hi Hd Hl. destruct (update_rows _ _ _ _ H) as [_ [_ [_ Hn]]].
  specialize (Hn i Hi). rewrite Hd in Hn.
  apply update_row_done in Hn; [|exact Hl].
  split; [exact Hn|]. intro Hu. rewrite Hn. apply map_clamp01_unit. exact Hu.
Qed.

Section Freeze.

Variable succ : row -> Z -> bool.

Section BCAFreeze.

Variable o : BCA.oracle.
Hypothesis Hdone : per_sample (BCA.get_loss o) succ.

Lemma steps_freeze (use_sample : bool) (label : list Z) (lam : Q)
  (Hshape : forall xs ls l, same_shape (BCA.grad_mean_loss o xs ls l) xs)
  (todo : nat) :
  forall (t : nat) (adv_x : batch) (w : world) (adv_x' : batch) (w' : world),
    use_sample && Nat.eqb t 0 = false ->
    unit_batch adv_x ->
    BCA.steps o use_sample label lam t todo adv_x w = (Ok adv_x', w') ->
    length adv_x' = length adv_x /\
    forall i, (i < length adv_x)%nat ->
      succ (nth i adv_x []) (nth i label 0%Z) = true ->
      nth i adv_x' [] = nth i adv_x [].
Proof.
  induction todo as [|todo IH]; intros t adv_x w adv_x' w' Hus Hunit H.
  - simpl in H. unfold ret in H. inversion H. split; reflexivity.
  - cbn [BCA.steps] in H. rewrite Hus in H.
    unfold bind at 1 in H. unfold ret at 1 in H.
    unfold bind at 1 in H. unfold ask at 1 in H. cbn beta iota zeta in H.
    rewrite Hdone in H.
    destruct (all_true (map2 succ adv_x label)) eqn:Eall.
    + unfold ret in H. inversion H. split; reflexivity.
    + unfold bind at 1 in H. unfold ask at 1 in H. cbn beta iota zeta in H.
      unfold bind at 1 in H. unfold lift_res at 1 in H.
      destruct (BCA.update adv_x _ (map2 succ adv_x label))
        as [adv1|e] eqn:Eupd; [|discriminate].
      destruct (update_rows _ _ _ _ Eupd) as [L1 [L2 [L3 _]]].
      apply IH in H.
      * destruct H as [L4 Hkeep]. split; [lia|].
        intros i Hi Hs.
        assert (E1 : nth i adv1 [] = nth i adv_x []).
        { apply (update_keeps_done _ _ _ _ i Eupd Hi).
          - rewrite nth_map2_succ by lia. exact Hs.
          - apply same_shape_nth. apply Hshape.
          - apply Forall_nth_row; assumption. }
        rewrite <- E1. apply Hkeep; [lia|]. rewrite E1. exact Hs.
      * destruct use_sample; reflexivity.
      * apply (update_unit _ _ _ _ Eupd).
Qed.

Lemma lambda_loop_freeze (label : list Z) (m : nat) (max_lambda_ : Q)
  (use_sample : bool) (base : Q) (fuel : nat) :
  forall (lam : Q) (adv_x : batch) (r : nat) (w : world)
         (adv_x' : batch) (lam' : Q) (r' : nat) (w' : world),
    BCA.lambda_loop o label m max_lambda_ use_sample base fuel lam adv_x r w
    = (Ok (Some (adv_x', lam', r')), w') ->
    length adv_x' = length adv_x /\
    forall i, (i < length adv_x)%nat ->
      succ (nth i adv_x []) (nth i label 0%Z) = true ->
      nth i adv_x' [] = nth i adv_x [].
Proof.
  induction fuel as [|fuel IH]; intros lam adv_x r w adv_x' lam' r' w' H.
  - simpl in H. discriminate.
  - rewrite lambda_loop_S in H.
    destruct (Qle_bool lam max_lambda_);
      [|unfold ret in H; inversion H; split; reflexivity].
    unfold bind at 1 in H. unfold ask at 1 in H. cbn beta iota zeta in H.
    rewrite Hdone in H.
    destruct (all_true (map2 succ adv_x label));
      [unfold ret in H; inversion H; split; reflexivity|].
    unfold bind at 1 in H.
    destruct (BCA._perturb o _ _ m lam use_sample _) as [[pert|e] w1];
      [|discriminate].
    unfold bind at 1 in H.
    destruct (masked_assign adv_x (map negb (map2 succ adv_x label))
                (rows_of pert)) as [adv1|] eqn:Eassign;
      [|simpl in H; discriminate].
    simpl of_option in H. unfold ret at 1 in H.
    destruct (masked_assign_keep _ _ _ _ [] Eassign) as [L1 [L2 Hkeep]].
    rewrite length_map in L2.
    assert (E1 : forall i, (i < length adv_x)%nat ->
              succ (nth i adv_x []) (nth i label 0%Z) = true ->
              nth i adv1 [] = nth i adv_x []).
    { intros i Hi Hs. apply Hkeep; [exact Hi|].
      rewrite (nth_indep _ true (negb false)) by (rewrite length_map; lia).
      rewrite map_nth. rewrite nth_map2_succ by lia. rewrite Hs. reflexivity. }
    destruct (negb (BCA.check_lambda o (Float.mul lam base))).
    + unfold ret in H. inversion H; subst. split; [exact L1 | exact E1].
    + apply IH in H. destruct H as [L3 Hk]. split; [lia|].
      intros i Hi Hs. rewrite <- (E1 i Hi Hs).
      apply Hk; [lia|]. rewrite (E1 i Hi Hs). exact Hs.
Qed.

End BCAFreeze.

Lemma get_scores_ok (lib : OSM.library) (a : OSM.attack) (v : OSM.victim)
  (pertb_x : batch) (label : list Z) (w : world) :
  exists scores done w',
    OSM.get_scores lib a v pertb_x label w = (Ok (scores, done), w').
Proof.
  unfold OSM.get_scores, bind, ask, ret.
  destruct (OSM.own_forward_g v && negb (OSM.oblivion a)); eauto.
Qed.

Lemma checkpoint_writes (lib : OSM.library) (a : OSM.attack) (v : OSM.victim)
  (adv_x : batch) (label : list Z) (done : list bool) (c1 c2 c3 : batch)
  (w : world) (adv_x' cont : batch) (w' : world) :
  OSM.checkpoint lib a v adv_x label done c1 c2 c3 w = (Ok (adv_x', cont), w')
  -> masked_assign adv_x (map negb done)
       (OSM.round_x lib cont (OSM.round_threshold a)) = Some adv_x'.
Proof.
  unfold OSM.checkpoint. cbv zeta. unfold bind at 1.
  destruct (get_scores_ok lib a v (List.concat [c1; c2; c3])
              (List.concat (repeat (masked_select label (map negb done))
                              (length [c1; c2; c3]))) w)
    as [scores [dn [w1 E]]].
  rewrite E.
  destruct (negb _ || negb _); [unfold raise; discriminate|].
  unfold bind at 1.
  destruct (masked_assign adv_x (map negb done) _) as [r|] eqn:Ea;
    simpl; unfold ret; intro H; inversion H; subst.
  exact Ea.
Qed.

Section OSMFreeze.

Variables (lib : OSM.library) (a : OSM.attack) (v : OSM.victim).
Variable inner : batch -> list Z -> Z -> M pyval.
Hypothesis Hdone : per_sample (OSM.get_loss lib) succ.

Lemma rounds_freeze (x : batch) (label : list Z) (todo : list Z) :
  forall (i0 : nat) (adv_x : batch) (pc : option batch)
         (pd : option (list bool)) (w : world) (adv_x' : batch) (w' : world),
    OSM.rounds lib a v inner x label i0 todo adv_x pc pd w = (Ok adv_x', w') ->
    length adv_x' = length adv_x /\
    forall i, (i < length adv_x)%nat ->
      succ (nth i adv_x []) (nth i label 0%Z) = true ->
      nth i adv_x' [] = nth i adv_x [].
Proof.
  induction todo as [|mini_step todo IH];
    intros i0 adv_x pc pd w adv_x' w' H.
  - simpl in H. unfold ret in H. inversion H. split; reflexivity.
  - cbn [OSM.rounds] in H.
    unfold bind at 1 in H. unfold ask at 1 in H. cbn beta iota zeta in H.
    rewrite Hdone in H.
    destruct (all_true (map2 succ adv_x label));
      [unfold ret in H; inversion H; split; reflexivity|].
    unfold bind at 1 in H.
    match type of H with
    | context [match ?c ?w0 with _ => _ end] =>
        destruct (c w0) as [[restart|e] w1]; [|discriminate]
    end.
    unfold bind at 1 in H.
    destruct (masked_assign adv_x (map negb (map2 succ adv_x label)) restart)
      as [adv1|] eqn:Ea1; [|simpl in H; discriminate].
    simpl of_option in H. unfold ret at 1 in H.
    unfold bind at 1 in H.
    destruct (inner _ _ mini_step w1) as [[r|e] w2]; [|discriminate].
    unfold bind at 1 in H.
    destruct (OSM.unpack3 r w2) as [[[[c1 c2] c3]|e] w3]; [|discriminate].
    unfold bind at 1 in H.
    destruct (OSM.checkpoint lib a v adv1 label _ c1 c2 c3 w3)
      as [[[adv2 cont]|e] w4] eqn:Ecp; [|discriminate].
    apply checkpoint_writes in Ecp.
    destruct (masked_assign_keep _ _ _ _ [] Ea1) as [L1 [L2 K1]].
    destruct (masked_assign_keep _ _ _ _ [] Ecp) as [L3 [L4 K2]].
    rewrite length_map in L2.
    assert (Hm : forall i, (i < length adv_x)%nat ->
              succ (nth i adv_x []) (nth i label 0%Z) = true ->
              nth i (map negb (map2 succ adv_x label)) true = false).
    { intros i Hi Hs.
      rewrite (nth_indep _ true (negb false)) by (rewrite length_map; lia).
      rewrite map_nth. rewrite nth_map2_succ by lia. rewrite Hs. reflexivity. }
    apply IH in H. destruct H as [L5 K3]. split; [lia|].
    intros i Hi Hs.
    assert (E2 : nth i adv2 [] = nth i adv_x []).
    { rewrite K2 by (try lia; apply Hm; assumption).
      apply K1; [exact Hi | apply Hm; assumption]. }
    rewrite <- E2. apply K3; [lia|]. rewrite E2. exact Hs.
Qed.

End OSMFreeze.

End Freeze.

(** C3: a sample that is done keeps its adversarial vector.  In a step of
    [BCA._perturb] the perturbation of a done sample is zeroed, so a done
    row with entries in [[0,1]] is not changed; when success depends on
    the sample alone, a row that is done is equal, at the end of
    [BCA._perturb], of the lambda loop, of [BCA.perturb], of the checkpoint
    loop of [OrthogonalStepwiseMax.perturb] and of that method, to what it
    was when the loop was entered, whatever state the loop was entered
    in: the loops write through the [~done] mask only. *)
Theorem monotonic_freeze (succ : row -> Z -> bool) :
  (forall (adv_x grad : batch) (done : list bool) (adv_x' : batch) (i : nat),
      BCA.update adv_x grad done = Ok adv_x' ->
      (i < length adv_x)%nat -> nth i done false = true ->
      length (nth i grad []) = length (nth i adv_x []) ->
      nth i adv_x' [] = map clamp01 (nth i adv_x []) /\
      (unit_row (nth i adv_x []) -> nth i adv_x' [] = nth i adv_x [])) /\
  (forall (o : BCA.oracle) (use_sample : bool) (label : list Z) (lam : Q)
          (t todo : nat) (adv_x : batch) (w : world) (adv_x' : batch)
          (w' : world),
      per_sample (BCA.get_loss o) succ ->
      (forall xs ls l, same_shape (BCA.grad_mean_loss o xs ls l) xs) ->
      use_sample && Nat.eqb t 0 = false ->
      unit_batch adv_x ->
      BCA.steps o use_sample label lam t todo adv_x w = (Ok adv_x', w') ->
      forall i, (i < length adv_x)%nat ->
        succ (nth i adv_x []) (nth i label 0%Z) = true ->
        nth i adv_x' [] = nth i adv_x []) /\
  (forall (o : BCA.oracle) (label : list Z) (m : nat) (max_lambda_ : Q)
          (use_sample : bool) (base : Q) (fuel : nat) (lam : Q)
          (adv_x : batch) (r : nat) (w : world) (adv_x' : batch) (lam' : Q)
          (r' : nat) (w' : world),
      per_sample (BCA.get_loss o) succ ->
      BCA.lambda_loop o label m max_lambda_ use_sample base fuel lam adv_x
        r w = (Ok (Some (adv_x', lam', r')), w') ->
      forall i, (i < length adv_x)%nat ->
        succ (nth i adv_x []) (nth i label 0%Z) = true ->
        nth i adv_x' [] = nth i adv_x []) /\
  (forall (o : BCA.oracle) (x : batch) (label : list Z) (m : nat)
          (min_lambda_ max_lambda_ : Q) (use_sample : bool) (base : Q)
          (fuel : nat) (w : world) (adv_x' : batch) (lam' : Q) (r' : nat)
          (w' : world),
      per_sample (BCA.get_loss o) succ ->
      BCA.perturb o x label m min_lambda_ max_lambda_ use_sample base fuel w
      = (Ok (Some (adv_x', lam', r')), w') ->
      forall i, (i < length x)%nat ->
        succ (nth i x []) (nth i label 0%Z) = true ->
        nth i adv_x' [] = nth i x []) /\
  (forall (lib : OSM.library) (a : OSM.attack) (v : OSM.victim)
          (inner : batch -> list Z -> Z -> M pyval) (x : batch)
          (label : list Z) (i0 : nat) (todo : list Z) (adv_x : batch)
          (pc : option batch) (pd : option (list bool)) (w : world)
          (adv_x' : batch) (w' : world),
      per_sample (OSM.get_loss lib) succ ->
      OSM.rounds lib a v inner x label i0 todo adv_x pc pd w
      = (Ok adv_x', w') ->
      forall i, (i < length adv_x)%nat ->
        succ (nth i adv_x []) (nth i label 0%Z) = true ->
        nth i adv_x' [] = nth i adv_x []) /\
  (forall (lib : OSM.library) (a : OSM.attack) (v : OSM.victim)
          (inner : batch -> list Z -> Z -> M pyval) (x : batch)
          (label : list Z) (steps step_check : Z) (sl_l1 sl_l2 sl_linf : Q)
          (w : world) (adv_x' : batch) (w' : world),
      per_sample (OSM.get_loss lib) succ ->
      OSM.perturb_with lib a v inner x label steps step_check sl_l1 sl_l2
        sl_linf w = (Ok adv_x', w') ->
      forall i, (i < length x)%nat ->
        succ (nth i x []) (nth i label 0%Z) = true ->
        nth i adv_x' [] = nth i x []).
Proof.
  split; [|split; [|split; [|split; [|split]]]].
  - intros. apply update_keeps_done with (grad := grad) (done := done);
      assumption.
  - intros o us label lam t todo adv_x w adv_x' w' Hd Hs Hus Hu H.
    apply (steps_freeze succ o Hd us label lam Hs todo t adv_x w adv_x' w'
             Hus Hu H).
  - intros o label m mx us base fuel lam adv_x r w adv_x' lam' r' w' Hd H.
    apply (lambda_loop_freeze succ o Hd label m mx us base fuel _ _ _ _ _ _
             _ _ H).
  - intros o x label m mn mx us base fuel w adv_x' lam' r' w' Hd H.
    unfold BCA.perturb in H.
    destruct (negb _); [discriminate|]. unfold bind at 1 in H.
    destruct (BCA.lambda_loop _ _ _ _ _ _ _ _ _ _ w)
      as [[[[[a1 l1] r1]|]|e] w1] eqn:El; try discriminate.
    unfold bind, ask, ret in H. inversion H; subst.
    apply (lambda_loop_freeze succ o Hd _ _ _ _ _ _ _ _ _ _ _ _ _ _ El).
  - intros lib a v inner x label i0 todo adv_x pc pd w adv_x' w' Hd H.
    apply (rounds_freeze succ lib a v inner Hd x label todo _ _ _ _ _ _ _ H).
  - intros lib a v inner x label steps sc s1 s2 s3 w adv_x' w' Hd H.
    unfold OSM.perturb_with in H.
    destruct (negb _); [discriminate|]. unfold bind at 1 in H.
    unfold lift_res at 1 in H.
    destruct (OSM.mini_steps steps sc) as [ms|e]; [|discriminate].
    unfold bind at 1 in H.
    destruct (OSM.rounds lib a v inner x label 0 ms x None None w)
      as [[adv1|e] w1] eqn:Er; [|discriminate].
    unfold bind, ask, ret in H. inversion H; subst.
    apply (rounds_freeze succ lib a v inner Hd x label ms _ _ _ _ _ _ _ Er).
Qed.

Lemma monotonic_freeze_witness :
  (forall i, (i < 2)%nat ->
     Mock.succ0 (nth i [[1; 0; 0]; [0; 0; 0]] []) (nth i [1%Z; 1%Z] 0%Z) = true ->
     nth i [[1; 0; 0]; [1; 1; 1]] [] = nth i [[1; 0; 0]; [0; 0; 0]] []) /\
  (forall i, (i < 2)%nat ->
     Mock.succ0 (nth i [[1; 0; 0]; [0; 0; 0]] []) (nth i [1%Z; 1%Z] 0%Z) = true ->
     nth i [[1; 0; 0]; [1; 0; 0]] [] = nth i [[1; 0; 0]; [0; 0; 0]] []).
Proof.
  split.
  - apply (proj1 (proj2 (proj2 (proj2 (monotonic_freeze Mock.succ0))))
             Mock.feature0 [[1; 0; 0]; [0; 0; 0]] [1%Z; 1%Z] 2%nat 1 100
             false 10 5%nat world0 [[1; 0; 0]; [1; 1; 1]] 100 3%nat
             (snd (BCA.perturb Mock.feature0 [[1; 0; 0]; [0; 0; 0]]
                     [1%Z; 1%Z] 2 1 100 false 10 5 world0))).
    + intros xs ls lam. reflexivity.
    + vm_compute. reflexivity.
  - apply (proj2 (proj2 (proj2 (proj2 (proj2 (monotonic_freeze Mock.succ0)))))
             Mock.library0 Mock.attack0 Mock.victim0 Mock.inner0
             [[1; 0; 0]; [0; 0; 0]] [1%Z; 1%Z] 3%Z 2%Z 1 1 (1 # 100) world0
             [[1; 0; 0]; [1; 0; 0]]
             (snd (OSM.perturb_with Mock.library0 Mock.attack0 Mock.victim0
                     Mock.inner0 [[1; 0; 0]; [0; 0; 0]] [1%Z; 1%Z] 3 2 1 1
                     (1 # 100) world0))).
    + intros xs ls lam. reflexivity.
    + vm_compute. reflexivity.
Defined.

(** ** The orthogonal projector *)

Lemma dot_cons (gv hv : Q) (g h : row) :
  OSM.dot (gv :: g) (hv :: h) = gv * hv + OSM.dot g h.
Proof. reflexivity. Qed.

Lemma dot_self_nonneg (h : row) : 0 <= OSM.dot h h.
Proof.
  induction h as [|hv h IH]; [apply Qle_refl|].
  rewrite dot_cons. assert (0 <= hv * hv) by nra. lra.
Qed.

Lemma dot_sub_scaled (c : Q) (g h : row) :
  length g = length h ->
  OSM.dot (map2 (fun gv hv => gv - c * hv) g h) h
  == OSM.dot g h - c * OSM.dot h h.
Proof.
  revert h. induction g as [|gv g IH]; intros [|hv h] Hl; simpl in Hl;
    try lia.
  - unfold OSM.dot. simpl. ring.
  - simpl map2. rewrite !dot_cons. rewrite IH by lia. ring.
Qed.

(** C5: with projection enabled the gradient of a sample is replaced by
    [g - ((g.h) / (1e-20 + h.h)) h], entry by entry; the denominator is
    positive whatever [h] is, so no division by zero occurs; what is left
    of [g] along [h] is [(g.h) * 1e-20 / (1e-20 + h.h)]; and projecting
    [[1,1]] against [[1,0]] gives [[0,1]] up to [1e-20]. *)
Theorem orth_project_removes_component :
  let eps := 1 # 100000000000000000000 in
  (forall h : row, 0 < eps + OSM.dot h h) /\
  (forall (g h : row) (j : nat),
      (j < length g)%nat -> (j < length h)%nat ->
      nth j (OSM.orth_project g h) 0
      = nth j g 0 - OSM.dot g h / (eps + OSM.dot h h) * nth j h 0) /\
  (forall g h : row,
      length g = length h ->
      OSM.dot (OSM.orth_project g h) h
      == OSM.dot g h * eps / (eps + OSM.dot h h)) /\
  (forall (a : OSM.attack) (v : OSM.victim) (label : list Z) (t p : nat)
          (adv_x : batch),
      OSM.project_detector a = true -> OSM.k a = Some (S p) ->
      (t mod S p = 0)%nat ->
      OSM.step_grad a v label t adv_x
      = map2 OSM.orth_project
          (Constraint.trans_grads (OSM.manipulation_x a)
             (OSM.grad_bce v adv_x) adv_x)
          (Constraint.trans_grads (OSM.manipulation_x a)
             (OSM.grad_ce v adv_x label) adv_x)) /\
  nth 0 (OSM.orth_project [1; 1] [1; 0]) 0 == eps / (1 + eps) /\
  0 <= nth 0 (OSM.orth_project [1; 1] [1; 0]) 0 <= eps /\
  nth 1 (OSM.orth_project [1; 1] [1; 0]) 0 == 1 /\
  length (OSM.orth_project [1; 1] [1; 0]) = 2%nat.
Proof.
  intro eps.
  assert (Hden : forall h : row, 0 < eps + OSM.dot h h).
  { intro h. pose proof (dot_self_nonneg h). subst eps.
    assert (0 < 1 # 100000000000000000000) by reflexivity. lra. }
  split; [exact Hden|]. split; [|split; [|split]].
  - intros g h j Hg Hh. unfold OSM.orth_project. cbv zeta.
    apply (nth_map2 (fun gv hv => gv - OSM.dot g h / (eps + OSM.dot h h) * hv)
             g h j 0 0 0); assumption.
  - intros g h Hl. unfold OSM.orth_project. cbv zeta.
    rewrite dot_sub_scaled by exact Hl. fold eps.
    specialize (Hden h). field. lra.
  - intros a v label t p adv_x Hpd Hk Ht. unfold OSM.step_grad. cbv zeta.
    rewrite Hk, Hpd. cbn [OSM.truthy]. rewrite Ht. reflexivity.
  - subst eps. repeat split; vm_compute; try reflexivity; discriminate.
Qed.

(** ** The projected-gradient steps of [OrthogonalStepwiseMax._perturb] *)

Lemma steps_loop_unbound (lib : OSM.library) (a : OSM.attack)
  (v : OSM.victim) (label : list Z) (sl_l1 sl_l2 sl_linf : Q) (todo : nat)
  (t : nat) (adv_x : batch) (w : world) :
  exists w',
    (r <- OSM.steps_loop lib a v label sl_l1 sl_l2 sl_linf t todo adv_x
            (OSM.mkLocals None None None) ;;
     OSM.read_local "adv_x_linf" (OSM.adv_x_linf r)) w
    = (Raise (UnboundLocalError "adv_x_linf"), w').
Proof.
  destruct todo as [|todo].
  - eexists. reflexivity.
  - cbn [OSM.steps_loop]. unfold OSM.step_update.
    destruct (Nat.eqb t 0 && OSM.use_random a); eexists; reflexivity.
Qed.

(** C7 (the code departs from the claim): [_perturb] never performs a
    projected-gradient step.  Its three candidates [adv_x_linf],
    [adv_x_l2] and [adv_x_l1] are read before anything is assigned to
    them, so on every batch with at least one sample the call ends in an
    exception: [UnboundLocalError] for [adv_x_linf] with a detector, and
    the failed assertion without one.  An all-0.5 vector, three steps of
    length 0.1 and an all-positive gradient end in that exception, although
    the L-inf update of line 193, applied three times to a bound
    candidate, would give 0.8 everywhere. *)
Theorem osm_perturb_raises :
  (forall (lib : OSM.library) (a : OSM.attack) (v : OSM.victim) (r : row)
          (x : batch) (label : list Z) (steps : Z) (sl_l1 sl_l2 sl_linf : Q)
          (w : world),
      exists w',
        OSM._perturb lib a v (r :: x) label steps sl_l1 sl_l2 sl_linf w
        = (Raise (if OSM.has_forward_g v
                  then UnboundLocalError "adv_x_linf"
                  else AssertionError), w')) /\
  fst (OSM._perturb Mock.library0 Mock.attack0 Mock.victim0
         [[1 # 2; 1 # 2; 1 # 2]] [1%Z] 3 1 1 (1 # 10) world0)
  = Raise (UnboundLocalError "adv_x_linf") /\
  map (map Qred)
    (OSM.add_scaled (1 # 10)
       (OSM.add_scaled (1 # 10)
          (OSM.add_scaled (1 # 10) [[1 # 2; 1 # 2; 1 # 2]] [[1; 1; 1]])
          [[1; 1; 1]]) [[1; 1; 1]])
  = [[4 # 5; 4 # 5; 4 # 5]].
Proof.
  split; [|split; vm_compute; reflexivity].
  intros lib a v r x label steps s1 s2 s3 w.
  unfold OSM._perturb. cbn [length Nat.leb].
  destruct (OSM.has_forward_g v); cbn [negb].
  - destruct (steps_loop_unbound lib a v label s1 s2 s3 (Z.to_nat steps)
                0%nat (r :: x) w) as [w' E].
    exists w'. unfold bind at 1. unfold bind at 1 in E.
    destruct (OSM.steps_loop _ _ _ _ _ _ _ _ _ _ _ w) as [[loc|e] w1].
    + unfold bind at 1. rewrite E. reflexivity.
    + inversion E; subst. reflexivity.
  - eexists. reflexivity.
Qed.

(** ** The checkpoint of [OrthogonalStepwiseMax.perturb] *)


Lemma nth_select_best (k n : nat) (pertbx : batch) (scores : list Q)
  (j : nat) :
  (j < n)%nat ->
  nth j (OSM.select_best k n pertbx scores) []
  = nth (OSM.s_idx k n scores j * n + j) pertbx [].
Proof.
  intro Hj. unfold OSM.select_best.
  rewrite (nth_indep _ []
             ((fun i => nth (OSM.s_idx k n scores i * n + i) pertbx []) 0%nat))
    by (rewrite length_map, length_seq; exact Hj).
  rewrite (map_nth (fun i => nth (OSM.s_idx k n scores i * n + i) pertbx [])
             (seq 0 n) 0%nat j).
  rewrite seq_nth by exact Hj. reflexivity.
Qed.

Lemma nth_scores_of (k n : nat) (scores : list Q) (j q : nat) :
  (q < k)%nat ->
  nth q (OSM.scores_of k n scores j) 0 = nth (q * n + j) scores 0.
Proof.
  intro Hq. unfold OSM.scores_of.
  rewrite (nth_indep _ 0 ((fun s => nth (s * n + j) scores 0) 0%nat))
    by (rewrite length_map, length_seq; exact Hq).
  rewrite (map_nth (fun s => nth (s * n + j) scores 0) (seq 0 k) 0%nat q).
  rewrite seq_nth by exact Hq. reflexivity.
Qed.


Lemma nth_stacked (c1 c2 c3 : batch) (n s j : nat) :
  length c1 = n -> length c2 = n -> length c3 = n ->
  (s < 3)%nat -> (j < n)%nat ->
  nth (s * n + j) (List.concat [c1; c2; c3]) []
  = nth j (nth s [c1; c2; c3] []) [].
Proof.
  intros H1 H2 H3 Hs Hj. simpl List.concat. rewrite app_nil_r.
  destruct s as [|[|[|s]]]; try lia; simpl nth.
  - rewrite app_nth1 by lia. f_equal.
  - rewrite app_nth2 by lia. rewrite app_nth1 by lia. f_equal. lia.
  - rewrite app_nth2 by lia. rewrite app_nth2 by lia. f_equal. lia.
Qed.


(** ** Instances *)

Lemma rand_x_binary_witness :
  Utils.rand_x [[0; 1]] (1 # 2) false [[9 # 10; 1 # 10]] = [[0; 1]] /\
  length (Utils.rand_x [[0; 1]] (1 # 2) true [[9 # 10; 1 # 10]]) = 1%nat.
Proof.
  destruct (rand_x_binary [[0; 1]] [[9 # 10; 1 # 10]] (1 # 2)) as [H1 [H2 _]].
  - apply Forall_cons; [|apply Forall_nil].
    apply Forall_cons; [left; reflexivity|].
    apply Forall_cons; [right; reflexivity | apply Forall_nil].
  - apply Forall2_cons; [reflexivity | apply Forall2_nil].
  - split; [exact H1 | exact H2].
Defined.

(** * Further properties of the attack code *)

(** ** Bit coordinate ascent only inserts, one feature per step *)

Lemma Qeq_bool_refl (x : Q) : Qeq_bool x x = true.
Proof. apply Qeq_bool_iff. reflexivity. Qed.

Lemma differ_refl (a : row) : differ a a = 0%nat.
Proof.
  induction a as [|x a IH]; simpl; [reflexivity|].
  rewrite Qeq_bool_refl, IH. reflexivity.
Qed.

Lemma differ_triangle (a b c : row) :
  length a = length b -> length b = length c ->
  (differ a c <= differ a b + differ b c)%nat.
Proof.
  revert b c. induction a as [|x a IH]; intros [|y b] [|z c] H1 H2;
    simpl in *; try lia.
  specialize (IH b c ltac:(lia) ltac:(lia)).
  destruct (Qeq_bool x z) eqn:Exz; destruct (Qeq_bool x y) eqn:Exy;
    destruct (Qeq_bool y z) eqn:Eyz; try lia.
  apply Qeq_bool_iff in Exy. apply Qeq_bool_iff in Eyz.
  assert (Hxz : x == z) by (rewrite Exy; exact Eyz).
  apply Qeq_bool_iff in Hxz. congruence.
Qed.

Lemma nonzeros_zeros {A : Type} (l : list A) :
  nonzeros (map (fun _ => 0) l) = 0%nat.
Proof. induction l as [|x l IH]; simpl; [reflexivity | exact IH]. Qed.

Lemma nonzeros_one_hot_from (p s n : nat) :
  (nonzeros (map (fun j => b2q (Nat.eqb j p)) (seq s n)) <= 1)%nat /\
  ((p < s)%nat ->
   nonzeros (map (fun j => b2q (Nat.eqb j p)) (seq s n)) = 0%nat).
Proof.
  revert s. induction n as [|n IH]; intro s; simpl; [split; lia|].
  destruct (IH (S s)) as [IH1 IH2].
  destruct (Nat.eqb s p) eqn:E.
  - apply Nat.eqb_eq in E. subst s. simpl.
    rewrite IH2 by lia. split; lia.
  - apply Nat.eqb_neq in E. simpl. split; [lia|].
    intro Hp. apply IH2. lia.
Qed.

Lemma binary_entry (v : Q) : binary_row [v] <-> (v == 0 \/ v == 1).
Proof.
  unfold binary_row. split; intro H.
  - inversion H; assumption.
  - constructor; [exact H | constructor].
Qed.

Lemma perturbed_row (a pert : row) :
  unit_row a -> length pert = length a ->
  Forall (fun v => v = 0 \/ v = 1) pert ->
  let r := map clamp01 (map2 Qplus a pert) in
  length r = length a /\ Forall2 Qle a r /\
  (differ a r <= nonzeros pert)%nat /\ unit_row r /\
  (binary_row a -> binary_row r).
Proof.
  intros Hu. revert pert.
  induction Hu as [|x a [Hx0 Hx1] Hu IH]; intros [|e pert] Hl Hp;
    simpl in Hl; try lia; cbv zeta.
  - simpl. repeat split; try constructor.
  - inversion Hp as [|? ? He Hp']; subst.
    destruct (IH pert ltac:(lia) Hp') as [L [Hle [Hd [Hur Hb]]]].
    simpl map2. simpl map. simpl length. simpl differ. simpl nonzeros.
    assert (Hc := clamp01_unit (x + e)).
    destruct He as [-> | ->].
    + rewrite Qplus_0_r_eq. rewrite clamp01_id by assumption.
      rewrite Qeq_bool_refl. change (Qeq_bool 0 0) with true.
      repeat split.
      * lia.
      * constructor; [apply Qle_refl | exact Hle].
      * simpl. exact Hd.
      * constructor; [split; assumption | exact Hur].
      * intro Hba. inversion Hba; subst. constructor; [assumption|].
        apply Hb. assumption.
    + change (Qeq_bool 1 0) with false.
      assert (Hone : clamp01 (x + 1) == 1) by (apply clamp01_on; exact Hx0).
      repeat split.
      * lia.
      * constructor; [rewrite Hone; exact Hx1 | exact Hle].
      * destruct (Qeq_bool x (clamp01 (x + 1))); simpl; lia.
      * constructor; [exact Hc | exact Hur].
      * intro Hba. inversion Hba; subst. constructor; [right; exact Hone|].
        apply Hb. assumption.
Qed.

Lemma update_row_inserted (a g r : row) (d : bool) :
  unit_row a -> length g = length a ->
  BCA.update_row a g d = Ok r -> inserted 1 a r.
Proof.
  intros Hu Hl. unfold BCA.update_row.
  destruct (torch_max _) as [[v p]|]; [|discriminate].
  intro H. inversion H as [Hr]. clear H.
  assert (Hn : length (map2 Constraint.grad4insertion_at g a) = length a)
    by (rewrite length_map2; lia).
  rewrite Hn.
  set (pert := if d then map (fun _ => 0) (one_hot (length a) p)
               else one_hot (length a) p).
  assert (Hlp : length pert = length a).
  { unfold pert. destruct d; rewrite ?length_map, length_one_hot; reflexivity. }
  assert (Hbits : Forall (fun v => v = 0 \/ v = 1) pert).
  { unfold pert. apply Forall_forall. intros q Hin. destruct d.
    - apply in_map_iff in Hin. destruct Hin as [u [Hq _]]. left. congruence.
    - unfold one_hot in Hin. apply in_map_iff in Hin.
      destruct Hin as [j [Hq _]]. subst q.
      destruct (Nat.eqb j p); [right | left]; reflexivity. }
  assert (Hnz : (nonzeros pert <= 1)%nat).
  { unfold pert. destruct d.
    - rewrite nonzeros_zeros. lia.
    - unfold one_hot. apply nonzeros_one_hot_from. }
  destruct (perturbed_row a pert Hu Hlp Hbits) as [L [Hle [Hd [Hur Hb]]]].
  unfold inserted. repeat split; try assumption. lia.
Qed.

Lemma inserted_refl (a : row) : unit_row a -> inserted 0 a a.
Proof.
  intro Hu. unfold inserted. repeat split; auto.
  - induction a; constructor; [apply Qle_refl|].
    apply IHa. inversion Hu; assumption.
  - rewrite differ_refl. lia.
Qed.

Lemma Forall2_Qle_trans (a b c : row) :
  Forall2 Qle a b -> Forall2 Qle b c -> Forall2 Qle a c.
Proof.
  intro H. revert c. induction H; intros c Hc; inversion Hc; subst;
    constructor; [eapply Qle_trans; eassumption | auto].
Qed.

Lemma inserted_trans (k1 k2 : nat) (a b c : row) :
  inserted k1 a b -> inserted k2 b c -> inserted (k1 + k2) a c.
Proof.
  intros [L1 [Le1 [D1 [U1 B1]]]] [L2 [Le2 [D2 [U2 B2]]]].
  unfold inserted. repeat split; auto.
  - lia.
  - eapply Forall2_Qle_trans; eassumption.
  - pose proof (differ_triangle a b c ltac:(lia) ltac:(lia)). lia.
Qed.

Lemma update_inserted (adv_x grad : batch) (done : list bool)
  (adv_x' : batch) :
  unit_batch adv_x -> same_shape grad adv_x ->
  BCA.update adv_x grad done = Ok adv_x' ->
  Forall2 (inserted 1) adv_x adv_x'.
Proof.
  revert grad done adv_x'.
  induction adv_x as [|a adv IH]; intros [|g grad] [|d done] adv' Hu Hs H;
    simpl in H; try discriminate.
  - inversion H. constructor.
  - destruct (BCA.update_row a g d) as [r|e] eqn:Er; [|discriminate].
    destruct (BCA.update adv grad done) as [rs|e] eqn:Ers; [|discriminate].
    inversion H; subst. inversion Hu; subst. inversion Hs; subst.
    constructor.
    + eapply update_row_inserted; eassumption.
    + eapply IH; eassumption.
Qed.

Lemma inserted_mono (k k' : nat) (a r : row) :
  (k <= k')%nat -> inserted k a r -> inserted k' a r.
Proof.
  intros Hk [L [Le [D [U B]]]]. unfold inserted. repeat split; auto. lia.
Qed.

Lemma Forall2_inserted_refl (k : nat) (x : batch) :
  unit_batch x -> Forall2 (inserted k) x x.
Proof.
  induction 1; constructor; auto.
  apply inserted_mono with 0%nat; [lia | apply inserted_refl; assumption].
Qed.

Lemma Forall2_inserted_trans (k1 k2 : nat) (x y z : batch) :
  Forall2 (inserted k1) x y -> Forall2 (inserted k2) y z ->
  Forall2 (inserted (k1 + k2)) x z.
Proof.
  intro H. revert z. induction H; intros z Hz; inversion Hz; subst;
    constructor; [eapply inserted_trans; eassumption | auto].
Qed.

Lemma steps_inserted (o : BCA.oracle) (use_sample : bool) (label : list Z)
  (lam : Q)
  (Hshape : forall xs ls l, same_shape (BCA.grad_mean_loss o xs ls l) xs)
  (todo : nat) :
  forall (t : nat) (adv_x : batch) (w : world) (adv_x' : batch) (w' : world),
    use_sample && Nat.eqb t 0 = false ->
    unit_batch adv_x ->
    BCA.steps o use_sample label lam t todo adv_x w = (Ok adv_x', w') ->
    Forall2 (inserted todo) adv_x adv_x'.
Proof.
  induction todo as [|todo IH]; intros t adv_x w adv_x' w' Hus Hunit H.
  - simpl in H. unfold ret in H. inversion H; subst.
    apply Forall2_inserted_refl. exact Hunit.
  - cbn [BCA.steps] in H. rewrite Hus in H.
    unfold bind at 1 in H. unfold ret at 1 in H.
    unfold bind at 1 in H. unfold ask at 1 in H. cbn beta iota zeta in H.
    destruct (all_true (snd (BCA.get_loss o adv_x label lam))).
    + unfold ret in H. inversion H; subst.
      apply Forall2_inserted_refl. exact Hunit.
    + unfold bind at 1 in H. unfold ask at 1 in H. cbn beta iota zeta in H.
      unfold bind at 1 in H. unfold lift_res at 1 in H.
      destruct (BCA.update adv_x _ _) as [adv1|e] eqn:Eupd; [|discriminate].
      pose proof (update_inserted _ _ _ _ Hunit (Hshape _ _ _) Eupd) as H1.
      apply IH in H.
      * change (S todo) with (1 + todo)%nat.
        eapply Forall2_inserted_trans; eassumption.
      * destruct use_sample; reflexivity.
      * apply (update_unit _ _ _ _ Eupd).
Qed.

(** X1: [BCA._perturb] only inserts.  On a batch with entries in [[0,1]]
    and without random start, every sample of the returned batch has the
    length of the input sample, no entry smaller than before, at most [m]
    entries changed, all entries in [[0,1]], and is binary when the input
    sample was. *)
Theorem bca_perturb_inserts (o : BCA.oracle) (x : batch) (label : list Z)
  (m : nat) (lambda_ : Q) (w : world) (v : pyval) (w' : world) :
  (forall xs ls l, same_shape (BCA.grad_mean_loss o xs ls l) xs) ->
  unit_batch x ->
  BCA._perturb o x label m lambda_ false w = (Ok v, w') ->
  (x = [] /\ v = PyList []) \/
  (exists r, v = PyTensor r /\ Forall2 (inserted m) x r).
Proof.
  intros Hshape Hunit H. unfold BCA._perturb in H.
  destruct x as [|a x].
  - left. simpl in H. unfold ret in H. inversion H. split; reflexivity.
  - right. cbn [length Nat.leb] in H. unfold bind at 1 in H.
    destruct (BCA.steps o false label lambda_ 0 m (a :: x) w)
      as [[r|e] w1] eqn:Es; [|discriminate].
    unfold ret in H. inversion H; subst.
    exists r. split; [reflexivity|].
    apply (steps_inserted o false label lambda_ Hshape m 0%nat (a :: x) w r
             w' eq_refl Hunit Es).
Qed.

Lemma same_shape_map (f : Q -> Q) (xs : batch) :
  same_shape (map (map f) xs) xs.
Proof.
  induction xs as [|r xs IH]; constructor; [apply length_map | exact IH].
Qed.

Lemma bca_perturb_inserts_witness :
  ([[0; 0; 0]] = [] /\ PyTensor [[1; 1; 0]] = PyList []) \/
  (exists r, PyTensor [[1; 1; 0]] = PyTensor r /\
             Forall2 (inserted 2) [[0; 0; 0]] r).
Proof.
  apply (bca_perturb_inserts Mock.eager [[0; 0; 0]] [1%Z] 2 1 world0
           (PyTensor [[1; 1; 0]])
           (snd (BCA._perturb Mock.eager [[0; 0; 0]] [1%Z] 2 1 false
                   world0))).
  - intros xs ls l. apply same_shape_map.
  - repeat constructor; vm_compute; discriminate.
  - vm_compute. reflexivity.
Defined.

(** ** Bit coordinate ascent returns an equally shaped batch *)

Lemma masked_select_length {A : Type} (t : list A) (mask : list bool) :
  length mask = length t ->
  length (masked_select t mask) = OSM.count_true mask.
Proof.
  unfold OSM.count_true. revert mask.
  induction t as [|a t IH]; intros [|b mask] H; simpl in *; try lia.
  destruct b; simpl; rewrite IH by lia; reflexivity.
Qed.

Lemma masked_select_Forall {A : Type} (P : A -> Prop) (t : list A)
  (mask : list bool) :
  Forall P t -> Forall P (masked_select t mask).
Proof.
  intro H. revert mask. induction H as [|a t Ha Ht IH]; intros [|b mask];
    simpl; try constructor.
  destruct b; [constructor; [exact Ha | apply IH] | apply IH].
Qed.

Lemma masked_assign_total {A : Type} (t : list A) (mask : list bool)
  (v : list A) :
  length mask = length t -> length v = OSM.count_true mask ->
  exists t', masked_assign t mask v = Some t'.
Proof.
  unfold OSM.count_true. revert mask v.
  induction t as [|a t IH]; intros [|b mask] v Hm Hv; simpl in *; try lia.
  - destruct v; [eexists; reflexivity | simpl in Hv; lia].
  - destruct b; simpl in Hv.
    + destruct v as [|r v]; simpl in Hv; [lia|].
      destruct (IH mask v ltac:(lia) ltac:(lia)) as [t' E]. rewrite E.
      eexists; reflexivity.
    + destruct (IH mask v ltac:(lia) Hv) as [t' E]. rewrite E.
      eexists; reflexivity.
Qed.

Lemma masked_assign_Forall {A : Type} (P : A -> Prop) (t : list A)
  (mask : list bool) (v t' : list A) :
  masked_assign t mask v = Some t' -> Forall P t -> Forall P v ->
  Forall P t'.
Proof.
  revert mask v t'. induction t as [|a t IH]; intros [|b mask] v t' H Ht Hv;
    simpl in H; try discriminate.
  - destruct v; [|discriminate]. inversion H. constructor.
  - inversion Ht; subst. destruct b.
    + destruct v as [|r v]; [discriminate|].
      destruct (masked_assign t mask v) as [rs|] eqn:E; [|discriminate].
      inversion H; subst. inversion Hv; subst.
      constructor; [assumption | eapply IH; eassumption].
    + destruct (masked_assign t mask v) as [rs|] eqn:E; [|discriminate].
      inversion H; subst. constructor; [assumption | eapply IH; eassumption].
Qed.

Lemma not_all_true_active (done : list bool) :
  all_true done = false -> (0 < OSM.count_true (map negb done))%nat.
Proof.
  unfold all_true, OSM.count_true.
  induction done as [|b done IH]; simpl; [discriminate|].
  destruct b; simpl; [exact IH | lia].
Qed.

Lemma update_row_length (a g r : row) (d : bool) :
  length g = length a -> BCA.update_row a g d = Ok r -> length r = length a.
Proof.
  intro Hl. unfold BCA.update_row.
  destruct (torch_max _) as [[v p]|]; [|discriminate].
  intro H. inversion H. rewrite length_map, length_map2.
  destruct d; rewrite ?length_map, length_one_hot, length_map2; lia.
Qed.

Lemma rect_nth (d : nat) (x : batch) (i : nat) :
  rect d x -> (i < length x)%nat -> length (nth i x []) = d.
Proof. intros H Hi. apply (Forall_nth_row _ _ [] i H Hi). Qed.

Lemma update_rect (d : nat) (adv_x grad : batch) (done : list bool) :
  (0 < d)%nat -> rect d adv_x -> rect d grad ->
  length grad = length adv_x -> length done = length adv_x ->
  exists adv_x',
    BCA.update adv_x grad done = Ok adv_x' /\ rect d adv_x' /\
    length adv_x' = length adv_x.
Proof.
  intros Hd Ha Hg Lg Ld.
  destruct (update_total adv_x grad done Lg Ld) as [adv' E].
  { intros i Hi. rewrite (rect_nth d adv_x i Ha Hi).
    rewrite (rect_nth d grad i Hg ltac:(lia)). split; [|reflexivity].
    intro En. pose proof (rect_nth d adv_x i Ha Hi) as L.
    rewrite En in L. simpl in L. lia. }
  exists adv'. split; [exact E|].
  destruct (update_rows _ _ _ _ E) as [L1 [_ [_ Hn]]]. split; [|exact L1].
  apply (Forall_nth_rows _ _ []). intros i Hi.
  assert (Hgi : length (nth i grad []) = length (nth i adv_x [])).
  { rewrite (rect_nth d adv_x i Ha ltac:(lia)).
    apply rect_nth; [exact Hg | lia]. }
  rewrite (update_row_length _ _ _ _ Hgi (Hn i ltac:(lia))).
  apply rect_nth; [exact Ha | lia].
Qed.

Section WellBehaved.

Variables (d : nat) (o : BCA.oracle).
Hypothesis Hd : (0 < d)%nat.
Hypothesis Hwb : well_behaved d o.

Lemma steps_total (use_sample : bool) (label : list Z) (lam : Q)
  (todo : nat) :
  forall (t : nat) (adv_x : batch) (w : world),
    rect d adv_x -> length label = length adv_x ->
    exists adv_x' w',
      BCA.steps o use_sample label lam t todo adv_x w = (Ok adv_x', w') /\
      rect d adv_x' /\ length adv_x' = length adv_x.
Proof.
  induction todo as [|todo IH]; intros t adv_x w Hr Hl.
  - exists adv_x, w. repeat split; auto.
  - cbn [BCA.steps].
    set (adv0 := if use_sample && Nat.eqb t 0
                 then BCA.get_x0 o (draws w) adv_x else adv_x).
    set (w0 := if use_sample && Nat.eqb t 0
               then mkWorld (queries w) (S (draws w)) else w).
    assert (Hr0 : rect d adv0)
      by (unfold adv0; destruct (use_sample && Nat.eqb t 0);
          [apply (wb_x0 d o Hwb) |]; exact Hr).
    assert (Hl0 : length adv0 = length adv_x)
      by (unfold adv0; destruct (use_sample && Nat.eqb t 0);
          [apply (wb_x0_len d o Hwb) | reflexivity]).
    assert (E0 : (if use_sample && Nat.eqb t 0
                  then n <- fresh_draw ;; ret (BCA.get_x0 o n adv_x)
                  else ret adv_x) w = (Ok adv0, w0)).
    { unfold adv0, w0. destruct (use_sample && Nat.eqb t 0); reflexivity. }
    unfold bind at 1. rewrite E0.
    unfold bind at 1. unfold ask at 1. cbn beta iota zeta.
    destruct (all_true (snd (BCA.get_loss o adv0 label lam))).
    + eexists _, _. split; [reflexivity|]. split; assumption.
    + unfold bind at 1. unfold ask at 1. cbn beta iota zeta.
      unfold bind at 1. unfold lift_res at 1.
      destruct (update_rect d adv0 (BCA.grad_mean_loss o adv0 label lam)
                  (snd (BCA.get_loss o adv0 label lam)) Hd Hr0)
        as [adv1 [E1 [Hr1 Hl1]]].
      * apply (wb_grad d o Hwb). exact Hr0.
      * apply (wb_grad_len d o Hwb).
      * apply (wb_done d o Hwb). lia.
      * rewrite E1.
        destruct (IH (S t) adv1 (mkWorld
                    ((queries w0 ++ [QGetLoss adv0 lam])
                       ++ [QGrad adv0 lam]) (draws w0)) Hr1 ltac:(lia))
          as [adv' [w' [E [Hr' Hl']]]].
        exists adv', w'. split; [exact E|]. split; [exact Hr' | lia].
Qed.

Lemma lambda_loop_total (label : list Z) (m : nat) (max_lambda_ : Q)
  (use_sample : bool) (base : Q) (fuel : nat) :
  forall (lam : Q) (adv_x : batch) (r : nat) (w : world),
    rect d adv_x -> length label = length adv_x ->
    exists out w',
      BCA.lambda_loop o label m max_lambda_ use_sample base fuel lam adv_x
        r w = (Ok out, w') /\
      match out with
      | Some (adv_x', _, _) => rect d adv_x' /\ length adv_x' = length adv_x
      | None => True
      end.
Proof.
  induction fuel as [|fuel IH]; intros lam adv_x r w Hr Hl.
  - exists None, w. split; [reflexivity | exact I].
  - rewrite lambda_loop_S.
    destruct (Qle_bool lam max_lambda_);
      [|eexists _, _; split; [reflexivity | split; [exact Hr | reflexivity]]].
    unfold bind at 1. unfold ask at 1. cbn beta iota zeta.
    pose proof (wb_done d o Hwb adv_x label lam Hl) as Ldone.
    destruct (all_true (snd (BCA.get_loss o adv_x label lam))) eqn:Eall;
      [eexists _, _; split; [reflexivity | split; [exact Hr | reflexivity]]|].
    set (nd := map negb (snd (BCA.get_loss o adv_x label lam))).
    assert (Lnd : length nd = length adv_x)
      by (unfold nd; rewrite length_map; exact Ldone).
    pose proof (not_all_true_active _ Eall) as Hact. fold nd in Hact.
    assert (Lsub : length (masked_select adv_x nd) = OSM.count_true nd)
      by (apply masked_select_length; exact Lnd).
    assert (Llab : length (masked_select label nd) = OSM.count_true nd)
      by (apply masked_select_length; lia).
    unfold bind at 1. unfold BCA._perturb.
    destruct (length (masked_select adv_x nd) <=? 0)%nat eqn:Ez;
      [apply Nat.leb_le in Ez; lia|].
    unfold bind at 1.
    destruct (steps_total use_sample (masked_select label nd) lam m 0%nat
                (masked_select adv_x nd)
                (mkWorld (queries w ++ [QGetLoss adv_x lam]) (draws w)))
      as [sub [w1 [Es [Hrs Hls]]]].
    { apply masked_select_Forall. exact Hr. }
    { lia. }
    rewrite Es. unfold ret at 1. cbn [rows_of]. unfold bind at 1.
    destruct (masked_assign_total adv_x nd sub Lnd ltac:(lia)) as [adv1 Ea].
    rewrite Ea. cbn [of_option]. unfold ret at 1.
    assert (Hr1 : rect d adv1)
      by (apply (masked_assign_Forall _ _ _ _ _ Ea Hr Hrs)).
    destruct (masked_assign_keep _ _ _ _ [] Ea) as [L1 _].
    destruct (negb (BCA.check_lambda o (Float.mul lam base))).
    + eexists _, _. split; [reflexivity|]. split; assumption.
    + destruct (IH (Float.mul lam base) adv1 (S r) w1 Hr1 ltac:(lia))
        as [out [w' [E Hout]]].
      exists out, w'. split; [exact E|].
      destruct out as [[[a1 l1] r1]|]; [|exact I].
      destruct Hout as [H1 H2]. split; [exact H1 | lia].
Qed.

End WellBehaved.

Lemma well_behaved_map (d : nat) (f : Q -> Q) (succ : row -> bool)
  (has_g : bool) (chk : Q -> bool) :
  well_behaved d
    (BCA.mkOracle (fun xs _ _ => (map (fun _ => 0) xs, map succ xs))
       (fun xs _ _ => map (map f) xs) has_g chk (fun _ x => x)).
Proof.
  constructor; simpl; intros; rewrite ?length_map; auto.
  unfold rect in *. rewrite Forall_map.
  eapply Forall_impl; [|eassumption]. intros r Hr. simpl.
  rewrite length_map. exact Hr.
Qed.



(** X2: with an oracle that answers one done flag per sample and a
    gradient of the shape of its input, [BCA.perturb] raises nothing on a
    batch of samples with [d > 0] features each: for
    [0 < min_lambda_ <= max_lambda_], when [K] rounded multiplications by
    [base] take the start value above [max_lambda_], it returns, after at
    most [K] rounds, a batch with as many samples as the input, each with
    [d] features. *)
Theorem bca_perturb_returns (d : nat) (o : BCA.oracle) (x : batch)
  (label : list Z) (m : nat) (min_lambda_ max_lambda_ : Q)
  (use_sample : bool) (base : Q) (K : nat) (w : world) :
  (0 < d)%nat -> well_behaved d o -> rect d x -> length label = length x ->
  0 < min_lambda_ -> min_lambda_ <= max_lambda_ ->
  max_lambda_
  < Float.escalate base
      (if BCA.has_forward_g o then min_lambda_ else max_lambda_) K ->
  exists (adv_x : batch) (lam : Q) (rounds : nat) (w' : world),
    BCA.perturb o x label m min_lambda_ max_lambda_ use_sample base (K + 1) w
    = (Ok (Some (adv_x, lam, rounds)), w') /\
    rect d adv_x /\ length adv_x = length x /\ (rounds <= K)%nat.
Proof.
  intros Hd Hwb Hr Hl Hmin Hle HK.
  set (lambda0 := if BCA.has_forward_g o then min_lambda_ else max_lambda_)
    in *.
  destruct (lambda_loop_total d o Hd Hwb label m max_lambda_ use_sample base
              (K + 1) lambda0 x 0%nat w Hr Hl) as [out [w1 [E Hout]]].
  pose proof (lambda_loop_post o label m max_lambda_ base use_sample
                K lambda0 x 0%nat w HK) as Hpost.
  replace (S K) with (K + 1)%nat in Hpost by lia.
  rewrite E in Hpost. cbn [fst] in Hpost. unfold loop_post in Hpost.
  destruct out as [[[adv lam] r]|]; [|contradiction].
  destruct Hout as [Hra Hla]. destruct Hpost as [_ [Hrounds _]].
  unfold BCA.perturb.
  apply Qlt_bool_iff in Hmin. apply Qle_bool_iff in Hle. rewrite Hmin, Hle.
  cbn [andb negb]. fold lambda0. unfold bind at 1. rewrite E.
  unfold bind, ask, ret. cbn beta iota.
  eexists adv, lam, r, _. split; [reflexivity|].
  split; [exact Hra|]. split; [exact Hla | lia].
Qed.

Lemma bca_perturb_returns_witness :
  exists (adv_x : batch) (lam : Q) (rounds : nat) (w' : world),
    BCA.perturb Mock.eager [[0; 0; 0]; [0; 1; 0]] [1%Z; 1%Z] 1 1 100 false 10
      (3 + 1) world0 = (Ok (Some (adv_x, lam, rounds)), w') /\
    rect 3 adv_x /\ length adv_x = 2%nat /\ (rounds <= 3)%nat.
Proof.
  apply (bca_perturb_returns 3 Mock.eager [[0; 0; 0]; [0; 1; 0]] [1%Z; 1%Z]
           1 1 100 false 10 3 world0).
  - lia.
  - apply (well_behaved_map 3 (fun q => 1 - q) (fun _ => false) true
             (fun _ => true)).
  - repeat constructor.
  - reflexivity.
  - reflexivity.
  - vm_compute. discriminate.
  - vm_compute. reflexivity.
Defined.

(** ** The query budget of bit coordinate ascent *)

Lemma steps_queries (o : BCA.oracle) (use_sample : bool) (label : list Z)
  (lam : Q) (todo : nat) :
  forall (t : nat) (adv_x : batch) (w : world) (out : res batch) (w' : world),
    BCA.steps o use_sample label lam t todo adv_x w = (out, w') ->
    exists qs,
      queries w' = queries w ++ qs /\ (length qs <= 2 * todo)%nat /\
      Forall (fun q => exists b, q = QGetLoss b lam \/ q = QGrad b lam) qs /\
      (draws w <= draws w' <= draws w + (if use_sample && Nat.eqb t 0
                                         then 1 else 0))%nat.
Proof.
  induction todo as [|todo IH]; intros t adv_x w out w' H.
  - simpl in H. unfold ret in H. inversion H; subst. exists [].
    rewrite app_nil_r. repeat split; auto; try lia.
  - cbn [BCA.steps] in H.
    set (adv0 := if use_sample && Nat.eqb t 0
                 then BCA.get_x0 o (draws w) adv_x else adv_x) in *.
    set (w0 := if use_sample && Nat.eqb t 0
               then mkWorld (queries w) (S (draws w)) else w).
    assert (E0 : (if use_sample && Nat.eqb t 0
                  then n <- fresh_draw ;; ret (BCA.get_x0 o n adv_x)
                  else ret adv_x) w = (Ok adv0, w0)).
    { unfold adv0, w0. destruct (use_sample && Nat.eqb t 0); reflexivity. }
    assert (Hq0 : queries w0 = queries w)
      by (unfold w0; destruct (use_sample && Nat.eqb t 0); reflexivity).
    assert (Hd0 : draws w0 = (draws w + (if use_sample && Nat.eqb t 0
                                         then 1 else 0))%nat)
      by (unfold w0; destruct (use_sample && Nat.eqb t 0); simpl; lia).
    unfold bind at 1 in H. rewrite E0 in H.
    unfold bind at 1 in H. unfold ask at 1 in H. cbn beta iota zeta in H.
    destruct (all_true (snd (BCA.get_loss o adv0 label lam))).
    + unfold ret in H. inversion H; subst. exists [QGetLoss adv0 lam].
      cbn [queries draws]. rewrite Hq0.
      repeat split; simpl; try lia.
      constructor; [exists adv0; left; reflexivity | constructor].
    + unfold bind at 1 in H. unfold ask at 1 in H. cbn beta iota zeta in H.
      unfold bind at 1 in H. unfold lift_res at 1 in H. cbn [queries draws] in H.
      destruct (BCA.update adv0 _ _) as [adv1|e].
      * apply IH in H. destruct H as [qs [Hq [Hlen [Hall Hdr]]]].
        cbn [queries draws] in Hq, Hdr.
        exists ([QGetLoss adv0 lam; QGrad adv0 lam] ++ qs).
        rewrite Hq, Hq0. rewrite <- !app_assoc. repeat split.
        -- rewrite length_app. simpl. lia.
        -- constructor; [exists adv0; left; reflexivity|].
           constructor; [exists adv0; right; reflexivity | exact Hall].
        -- lia.
        -- replace (use_sample && Nat.eqb (S t) 0) with false in Hdr
             by (destruct use_sample; reflexivity). lia.
      * inversion H; subst. exists [QGetLoss adv0 lam; QGrad adv0 lam].
        cbn [queries draws]. rewrite Hq0. rewrite <- app_assoc.
        repeat split; simpl; try lia.
        constructor; [exists adv0; left; reflexivity|].
        constructor; [exists adv0; right; reflexivity | constructor].
Qed.

(** X3: whatever its outcome, a call of [BCA._perturb] asks the oracle at
    most [2 * m] times (one loss and one gradient per step), always under
    the penalty it was given, and erases none of the earlier queries; it
    draws at most one random tensor, and none without [use_sample]. *)
Theorem bca_inner_query_budget (o : BCA.oracle) (x : batch) (label : list Z)
  (m : nat) (lambda_ : Q) (use_sample : bool) (w : world)
  (out : res pyval) (w' : world) :
  BCA._perturb o x label m lambda_ use_sample w = (out, w') ->
  exists qs,
    queries w' = queries w ++ qs /\ (length qs <= 2 * m)%nat /\
    Forall (fun q => exists b, q = QGetLoss b lambda_ \/ q = QGrad b lambda_)
      qs /\
    (draws w <= draws w' <= draws w + (if use_sample then 1 else 0))%nat.
Proof.
  unfold BCA._perturb. destruct (length x <=? 0)%nat.
  - unfold ret. intro H. inversion H; subst. exists [].
    rewrite app_nil_r. split; [reflexivity|]. split; [simpl; lia|].
    split; [constructor | destruct use_sample; lia].
  - unfold bind. destruct (BCA.steps o use_sample label lambda_ 0 m x w)
      as [r w1] eqn:Es.
    apply steps_queries in Es. destruct Es as [qs [Hq [Hl [Hall Hd]]]].
    rewrite andb_true_r in Hd.
    intro H. exists qs. destruct r; unfold ret in H; inversion H; subst;
      repeat split; auto; lia.
Qed.

Lemma bca_inner_query_budget_witness :
  exists qs,
    queries (snd Mock.eager_run) = queries world0 ++ qs /\
    (length qs <= 2 * 2)%nat /\
    Forall (fun q => exists b, q = QGetLoss b 1 \/ q = QGrad b 1) qs /\
    (draws world0 <= draws (snd Mock.eager_run) <= draws world0 + 0)%nat.
Proof.
  apply (bca_inner_query_budget Mock.eager [[0; 0; 0]] [1%Z] 2 1 false world0
           (fst Mock.eager_run)).
  vm_compute. reflexivity.
Defined.

Lemma bca_inner_queries_aux (o : BCA.oracle) (x : batch) (label : list Z)
  (m : nat) (lambda_ : Q) (use_sample : bool) (w : world)
  (out : res pyval) (w' : world) :
  BCA._perturb o x label m lambda_ use_sample w = (out, w') ->
  exists qs, queries w' = queries w ++ qs /\ (length qs <= 2 * m)%nat.
Proof.
  unfold BCA._perturb. destruct (length x <=? 0)%nat.
  - unfold ret. intro H. inversion H; subst. exists [].
    rewrite app_nil_r. split; [reflexivity | simpl; lia].
  - unfold bind. destruct (BCA.steps o use_sample label lambda_ 0 m x w)
      as [r w1] eqn:Es.
    apply steps_queries in Es. destruct Es as [qs [Hq [Hl _]]].
    intro H. exists qs. destruct r; unfold ret in H; inversion H; subst;
      split; assumption.
Qed.

Lemma lambda_loop_queries (o : BCA.oracle) (label : list Z) (m : nat)
  (max_lambda_ : Q) (use_sample : bool) (base : Q) (fuel : nat) :
  forall (lam : Q) (adv_x : batch) (r : nat) (w : world)
         (adv_x' : batch) (lam' : Q) (r' : nat) (w' : world),
    BCA.lambda_loop o label m max_lambda_ use_sample base fuel lam adv_x r w
    = (Ok (Some (adv_x', lam', r')), w') ->
    (r <= r')%nat /\
    exists qs, queries w' = queries w ++ qs /\
               (length qs <= (r' - r) * (2 * m + 1))%nat.
Proof.
  induction fuel as [|fuel IH]; intros lam adv_x r w adv_x' lam' r' w' H.
  - simpl in H. discriminate.
  - rewrite lambda_loop_S in H.
    destruct (Qle_bool lam max_lambda_).
    2:{ unfold ret in H. inversion H; subst. split; [lia|]. exists [].
        rewrite app_nil_r. split; [reflexivity | simpl; lia]. }
    unfold bind at 1 in H. unfold ask at 1 in H. cbn beta iota zeta in H.
    destruct (all_true (snd (BCA.get_loss o adv_x label lam))).
    { unfold ret in H. inversion H; subst. split; [lia|].
      eexists. cbn [queries]. split; [reflexivity|]. simpl length.
      replace (S r - r)%nat with 1%nat by lia. lia. }
    unfold bind at 1 in H.
    destruct (BCA._perturb o _ _ m lam use_sample _) as [[pert|e] w1] eqn:Ep;
      [|discriminate].
    apply bca_inner_queries_aux in Ep.
    destruct Ep as [qs1 [Hq1 Hl1]]. cbn [queries] in Hq1.
    unfold bind at 1 in H.
    destruct (of_option RuntimeError _ w1) as [[adv1|e] w2] eqn:Eo;
      [|discriminate].
    assert (Hw2 : w2 = w1).
    { destruct (masked_assign adv_x _ _); simpl in Eo; unfold ret, raise in Eo;
        inversion Eo; reflexivity. }
    subst w2.
    destruct (negb (BCA.check_lambda o (Float.mul lam base))).
    + unfold ret in H. inversion H; subst. split; [lia|].
      eexists (_ :: qs1). rewrite Hq1.
      rewrite <- app_assoc. split; [reflexivity|].
      simpl length.
      replace (S r - r)%nat with 1%nat by lia. lia.
    + apply IH in H. destruct H as [Hr [qs [Hq Hl]]]. split; [lia|].
      exists ([QGetLoss adv_x lam] ++ qs1 ++ qs). rewrite Hq, Hq1.
      rewrite <- !app_assoc. split; [reflexivity|].
      rewrite !length_app. simpl length.
      replace (r' - r)%nat with (S (r' - S r)) by lia. simpl. lia.
Qed.

(** X4: when [BCA.perturb] returns after [rounds] entries into its lambda
    loop, it has asked the oracle at most [rounds * (2 * m + 1) + 1]
    times: per round one success check and at most [m] losses and [m]
    gradients, and one last success check after the loop. *)
Theorem bca_query_budget (o : BCA.oracle) (x : batch) (label : list Z)
  (m : nat) (min_lambda_ max_lambda_ : Q) (use_sample : bool) (base : Q)
  (fuel : nat) (w : world) (adv_x : batch) (lam : Q) (rounds : nat)
  (w' : world) :
  BCA.perturb o x label m min_lambda_ max_lambda_ use_sample base fuel w
  = (Ok (Some (adv_x, lam, rounds)), w') ->
  exists qs,
    queries w' = queries w ++ qs /\
    (length qs <= rounds * (2 * m + 1) + 1)%nat.
Proof.
  unfold BCA.perturb. destruct (negb _); [discriminate|].
  unfold bind at 1.
  destruct (BCA.lambda_loop _ _ _ _ _ _ _ _ _ _ w)
    as [[[[[a1 l1] r1]|]|e] w1] eqn:El; try discriminate.
  unfold bind, ask, ret. intro H. inversion H; subst.
  apply lambda_loop_queries in El. destruct El as [_ [qs [Hq Hl]]].
  exists (qs ++ [QGetLoss adv_x lam]). cbn [queries]. rewrite Hq.
  rewrite <- app_assoc. split; [reflexivity|].
  rewrite length_app. simpl. rewrite Nat.sub_0_r in Hl. lia.
Qed.

Lemma bca_query_budget_witness :
  exists qs,
    queries (snd Mock.eager_attack) = queries world0 ++ qs /\
    (length qs <= 3 * (2 * 1 + 1) + 1)%nat.
Proof.
  apply (bca_query_budget Mock.eager [[0; 0; 0]; [0; 1; 0]] [1%Z; 1%Z] 1 1 100
           false 10 4 world0 [[1; 1; 1]; [1; 1; 1]] 1000 3
           (snd Mock.eager_attack)).
  vm_compute. reflexivity.
Defined.

(** ** The checkpoints of [OrthogonalStepwiseMax.perturb] *)

Lemma sum_repeat (c : Z) (n : nat) :
  fold_right Z.add 0%Z (repeat c n) = (c * Z.of_nat n)%Z.
Proof.
  induction n as [|n IH]; [simpl; lia|].
  cbn [repeat fold_right]. rewrite IH. lia.
Qed.

Lemma sum_app (l l' : list Z) :
  fold_right Z.add 0%Z (l ++ l')
  = (fold_right Z.add 0%Z l + fold_right Z.add 0%Z l')%Z.
Proof. induction l as [|a l IH]; simpl; [reflexivity | rewrite IH; lia]. Qed.

(** X5: for [steps >= 0] and [step_check > 0] the checkpoint schedule
    [mini_steps] splits the step budget exactly: its entries add up to
    [steps], each lies between 1 and [step_check], and there are
    [ceil (steps / step_check)] of them.  A [step_check] of zero is a
    division by zero. *)
Theorem mini_steps_partition :
  (forall steps step_check : Z,
      (0 <= steps)%Z -> (0 < step_check)%Z ->
      exists l,
        OSM.mini_steps steps step_check = Ok l /\
        fold_right Z.add 0%Z l = steps /\
        Forall (fun s => (0 < s <= step_check)%Z) l /\
        Z.of_nat (length l) = ((steps + step_check - 1) / step_check)%Z) /\
  (forall steps : Z, OSM.mini_steps steps 0 = Raise ZeroDivisionError).
Proof.
  split; [|reflexivity].
  intros steps sc Hs Hc. unfold OSM.mini_steps.
  assert (Ez : (sc =? 0)%Z = false) by (apply Z.eqb_neq; lia). rewrite Ez.
  pose proof (Z.div_mod steps sc ltac:(lia)) as Hdm.
  pose proof (Z.mod_pos_bound steps sc Hc) as Hmod.
  assert (Hq : (0 <= steps / sc)%Z) by (apply Z.div_pos; lia).
  eexists. split; [reflexivity|].
  destruct (steps mod sc =? 0)%Z eqn:Er; cbn [negb].
  - apply Z.eqb_eq in Er. repeat split.
    + rewrite sum_repeat. rewrite Z2Nat.id by exact Hq. lia.
    + apply Forall_forall. intros s Hin. apply repeat_spec in Hin. lia.
    + rewrite repeat_length. rewrite Z2Nat.id by exact Hq.
      apply (Z.div_unique _ _ _ (sc - 1)); lia.
  - apply Z.eqb_neq in Er. repeat split.
    + rewrite sum_app, sum_repeat. rewrite Z2Nat.id by exact Hq.
      simpl. lia.
    + apply Forall_app. split.
      * apply Forall_forall. intros s Hin. apply repeat_spec in Hin. lia.
      * constructor; [lia | constructor].
    + rewrite length_app, repeat_length. simpl length.
      rewrite Nat2Z.inj_add. rewrite Z2Nat.id by exact Hq.
      apply (Z.div_unique _ _ _ (steps mod sc - 1)); lia.
Qed.

Lemma mini_steps_partition_witness :
  exists l,
    OSM.mini_steps 25 10 = Ok l /\
    fold_right Z.add 0%Z l = 25%Z /\
    Forall (fun s => (0 < s <= 10)%Z) l /\
    Z.of_nat (length l) = ((25 + 10 - 1) / 10)%Z.
Proof.
  apply (proj1 mini_steps_partition 25%Z 10%Z); lia.
Defined.

Lemma osm_inner_no_candidates (lib : OSM.library) (a : OSM.attack)
  (v : OSM.victim) (x : batch) (label : list Z) (steps : Z)
  (sl_l1 sl_l2 sl_linf : Q) (w : world) :
  exists e w',
    (r <- OSM._perturb lib a v x label steps sl_l1 sl_l2 sl_linf ;;
     OSM.unpack3 r) w = (Raise e, w').
Proof.
  unfold OSM._perturb. destruct x as [|r x].
  - simpl. eexists _, _. reflexivity.
  - cbn [length Nat.leb]. destruct (OSM.has_forward_g v); cbn [negb].
    + destruct (steps_loop_unbound lib a v label sl_l1 sl_l2 sl_linf
                  (Z.to_nat steps) 0%nat (r :: x) w) as [w' E].
      exists (UnboundLocalError "adv_x_linf"), w'.
      unfold bind at 1. unfold bind at 1. unfold bind at 1 in E.
      destruct (OSM.steps_loop _ _ _ _ _ _ _ _ _ _ _ w) as [[loc|e] w1].
      * unfold bind at 1. rewrite E. reflexivity.
      * inversion E; subst. reflexivity.
    + eexists _, _. reflexivity.
Qed.

(** X6: [OrthogonalStepwiseMax.perturb] never hands back a perturbed
    batch.  Whenever it returns, the result is its input [x], and either
    no checkpoint was scheduled or every sample was already successful at
    the first check; once a sample is active the call ends in the
    exception of [_perturb] (or in a failed unpacking). *)
Theorem osm_perturb_returns_input (lib : OSM.library) (a : OSM.attack)
  (v : OSM.victim) (x : batch) (label : list Z) (steps step_check : Z)
  (sl_l1 sl_l2 sl_linf : Q) (w : world) (adv_x : batch) (w' : world) :
  OSM.perturb lib a v x label steps step_check sl_l1 sl_l2 sl_linf w
  = (Ok adv_x, w') ->
  adv_x = x /\
  (OSM.mini_steps steps step_check = Ok [] \/
   all_true (snd (OSM.get_loss lib x label (OSM.lambda_ a))) = true).
Proof.
  unfold OSM.perturb, OSM.perturb_with.
  destruct (negb _); [discriminate|].
  unfold bind at 1. unfold lift_res at 1.
  destruct (OSM.mini_steps steps step_check) as [ms|e]; [|discriminate].
  unfold bind at 1.
  destruct ms as [|mini_step ms].
  - simpl. unfold bind, ask, ret. intro H. inversion H; subst.
    split; [reflexivity | left; reflexivity].
  - cbn [OSM.rounds]. unfold bind at 1. unfold ask at 1.
    cbn beta iota zeta.
    destruct (all_true (snd (OSM.get_loss lib x label (OSM.lambda_ a))))
      eqn:Eall.
    + unfold bind, ask, ret. intro H. inversion H; subst.
      split; [reflexivity | right; reflexivity].
    + cbn [Nat.eqb]. unfold bind at 1. unfold ret at 1.
      unfold bind at 1.
      match goal with
      | |- context [of_option RuntimeError ?m ?w0] =>
          destruct (of_option RuntimeError m w0) as [[adv1|e] w1]
      end; [|discriminate].
      match goal with
      | |- context [OSM._perturb lib a v ?xs ?ls ?st sl_l1 sl_l2 sl_linf] =>
          destruct (osm_inner_no_candidates lib a v xs ls st sl_l1 sl_l2
                      sl_linf w1) as [e [w2 E]]
      end.
      unfold bind at 1 in E. unfold bind at 1.
      destruct (OSM._perturb lib a v _ _ mini_step sl_l1 sl_l2 sl_linf w1)
        as [[r|e'] w3]; [|discriminate].
      unfold bind at 1. rewrite E. discriminate.
Qed.

Lemma osm_perturb_returns_input_witness :
  [[1; 0; 0]] = [[1; 0; 0]] /\
  (OSM.mini_steps 3 2 = Ok [] \/
   all_true (snd (OSM.get_loss Mock.library0 [[1; 0; 0]] [1%Z]
                    (OSM.lambda_ Mock.attack0))) = true).
Proof.
  apply (osm_perturb_returns_input Mock.library0 Mock.attack0 Mock.victim0
           [[1; 0; 0]] [1%Z] 3 2 1 1 (1 # 100) world0 [[1; 0; 0]]
           (snd Mock.evaded_run)).
  vm_compute. reflexivity.
Defined.

(** ** The direction of a feasible gradient *)

Lemma land_1_bit (m : Z) : Z.land 1 m = 0%Z \/ Z.land 1 m = 1%Z.
Proof.
  assert (H : Z.land 1 m = (m mod 2)%Z).
  { rewrite Z.land_comm. apply (Z.land_ones m 1). lia. }
  rewrite H. pose proof (Z.mod_pos_bound m 2 ltac:(lia)). lia.
Qed.

Lemma trans_grads_at_value (m : Z) (g a : Q) :
  let out := Constraint.trans_grads_at m g a in
  (g < 0 /\ (1 # 2) < a /\ Z.land 1 m = 1%Z /\ out == g) \/
  (0 <= g /\ 0 <= a /\ a <= 1 # 2 /\ out == g) \/
  out == 0.
Proof.
  cbv zeta. unfold Constraint.trans_grads_at.
  destruct (land_1_bit m) as [Hb | Hb];
  destruct (Qle_bool a (1 # 2)) eqn:Ea; destruct (Qle_bool 0 g) eqn:Eg;
    destruct (Qlt_bool (1 # 2) a) eqn:Ea'; destruct (Qlt_bool g 0) eqn:Eg';
    destruct (Qle_bool 0 a) eqn:E0;
    repeat match goal with E : _ = _ :> bool |- _ => qbool E end;
    try (exfalso; lra);
    unfold b2z, b2q;
    change (1 * 1 * 0)%Z with 0%Z; change (0 * 1 * 0)%Z with 0%Z;
    change (1 * 1 * 1)%Z with 1%Z; change (0 * 1 * 1)%Z with 0%Z;
    change (1 * 1)%Z with 1%Z; change (0 * 1)%Z with 0%Z;
    rewrite ?Z.land_0_l; rewrite ?Hb; unfold inject_Z;
    first [ right; right; ring
          | right; left; split; [assumption|]; split; [assumption|];
            split; [assumption|]; ring
          | left; split; [assumption|]; split; [assumption|];
            split; [reflexivity|]; ring ].
Qed.

Lemma trans_grads_at_cases (m : Z) (g a : Q) :
  let out := Constraint.trans_grads_at m g a in
  (out == 0 \/ out == g) /\
  (a <= 1 # 2 -> 0 <= out) /\
  ((1 # 2) < a -> out <= 0) /\
  (Z.land 1 m = 0%Z -> 0 <= out).
Proof.
  cbv zeta.
  destruct (trans_grads_at_value m g a)
    as [[Hg [Ha [Hm E]]] | [[Hg [H0 [Ha E]]] | E]]; rewrite E.
  - split; [right; reflexivity|]. split; [intro; lra|].
    split; [intro; lra|]. intro Hz. rewrite Hz in Hm. discriminate Hm.
  - split; [right; reflexivity|]. split; [intro; lra|].
    split; [intro; lra|]. intro. lra.
  - split; [left; reflexivity|]. split; [intro; lra|].
    split; [intro; lra|]. intro. lra.
Qed.

(** X7: every entry of [trans_grads] is the raw gradient or zero; it is
    never negative where the feature is off (value at most 0.5) or where
    the manipulation mask does not allow removal, and never positive where
    the feature is on.  A step along its sign can therefore only switch an
    off feature on, and an on feature off only where the mask allows it. *)
Theorem trans_grads_direction (mx : list Z) (gradients adv_features : batch)
  (i j : nat) :
  let g := nth j (nth i gradients []) 0 in
  let a := nth j (nth i adv_features []) 0 in
  let m := nth j mx 0%Z in
  let out :=
    nth j (nth i (Constraint.trans_grads mx gradients adv_features) []) 0 in
  (out == 0 \/ out == g) /\
  (a <= 1 # 2 -> 0 <= out) /\
  ((1 # 2) < a -> out <= 0) /\
  (Z.land 1 m = 0%Z -> 0 <= out).
Proof.
  cbv zeta. unfold Constraint.trans_grads.
  assert (Hz : forall g a : Q,
            ((0 == 0 \/ 0 == g) /\ (a <= 1 # 2 -> 0 <= 0) /\
             ((1 # 2) < a -> 0 <= 0) /\
             (Z.land 1 (nth j mx 0%Z) = 0%Z -> 0 <= 0))).
  { intros. repeat split; try (intros; apply Qle_refl). left. reflexivity. }
  destruct (nth_map2_default (Constraint.trans_grads_row mx) gradients
              adv_features i [] [] []) as [E|E]; rewrite E.
  - replace (nth j [] 0) with 0 by (destruct j; reflexivity). apply Hz.
  - destruct (nth_trans_grads_row mx (nth i gradients [])
                (nth i adv_features []) j) as [E'|E']; rewrite E'.
    + apply Hz.
    + apply trans_grads_at_cases.
Qed.

(** ** Random start on relaxed vectors *)

Lemma same_shape_length (x y : batch) : same_shape x y -> length x = length y.
Proof. intro H. induction H; simpl; congruence. Qed.

Lemma nth_rand_x (x u : batch) (th : Q) (i j : nat) :
  same_shape u x -> (i < length x)%nat -> (j < length (nth i x []))%nat ->
  nth j (nth i (Utils.rand_x x th true u) []) 0
  = inject_Z (Z.lor (b2z (Qlt_bool th (nth j (nth i u []) 0)))
                (Utils.to_byte (nth j (nth i x []) 0))).
Proof.
  intros Hshape Hi Hj.
  pose proof (same_shape_length u x Hshape) as Hlen.
  pose proof (same_shape_nth u x i Hshape) as Hr.
  unfold Utils.rand_x.
  set (G := fun r : Q => b2q (Qlt_bool th r)).
  set (F := fun r xv : Q =>
              inject_Z (Z.lor (Utils.to_byte r) (Utils.to_byte xv))).
  assert (Eout : nth i (map2 (map2 F) (map (map G) u) x) [] =
                 map2 F (map G (nth i u [])) (nth i x [])).
  { rewrite (nth_map2 (map2 F) _ _ i [] [] []).
    - f_equal. apply (map_nth (map G) u []).
    - rewrite length_map. lia.
    - exact Hi. }
  rewrite Eout.
  assert (Ev : nth j (map2 F (map G (nth i u [])) (nth i x [])) 0 =
               F (G (nth j (nth i u []) 0)) (nth j (nth i x []) 0)).
  { rewrite (nth_map2 F _ _ j (G 0) 0 0).
    - f_equal. apply (map_nth G).
    - rewrite length_map. lia.
    - exact Hj. }
  rewrite Ev. unfold F, G. rewrite to_byte_b2q. reflexivity.
Qed.

Lemma to_byte_small (v : Q) : 0 <= v -> v < 1 -> Utils.to_byte v = 0%Z.
Proof.
  unfold Qle, Qlt, Utils.to_byte. simpl. intros H0 H1.
  rewrite Z.quot_small by lia. reflexivity.
Qed.

Lemma to_byte_one (v : Q) : 1 <= v -> v < 2 -> Utils.to_byte v = 1%Z.
Proof.
  unfold Qle, Qlt, Utils.to_byte. simpl. intros H1 H2.
  assert (E : (Qnum v ÷ Z.pos (Qden v))%Z = 1%Z).
  { rewrite Z.quot_div_nonneg by lia.
    symmetry. apply (Z.div_unique _ _ _ (Qnum v - Z.pos (Qden v))); lia. }
  rewrite E. reflexivity.
Qed.

(** X8: [rand_x] with sampling reads its input through [.byte()], which
    truncates.  An entry with [0 <= x < 1] is replaced by the random bit
    alone, so a relaxed value such as 0.7 can come back as 0; an entry
    with [1 <= x < 2] comes back as 1. *)
Theorem rand_x_truncates (x u : batch) (rounding_threshold : Q) (i j : nat) :
  same_shape u x -> (i < length x)%nat -> (j < length (nth i x []))%nat ->
  let xv := nth j (nth i x []) 0 in
  let uv := nth j (nth i u []) 0 in
  let ov := nth j (nth i (Utils.rand_x x rounding_threshold true u) []) 0 in
  (0 <= xv -> xv < 1 -> ov = b2q (Qlt_bool rounding_threshold uv)) /\
  (1 <= xv -> xv < 2 -> ov = 1).
Proof.
  intros Hs Hi Hj. cbv zeta. rewrite (nth_rand_x x u _ i j Hs Hi Hj). split.
  - intros H0 H1. rewrite (to_byte_small _ H0 H1).
    destruct (Qlt_bool rounding_threshold _); reflexivity.
  - intros H1 H2. rewrite (to_byte_one _ H1 H2).
    destruct (Qlt_bool rounding_threshold _); reflexivity.
Qed.

Lemma rand_x_truncates_witness :
  (0 <= 7 # 10 -> (7 # 10) < 1 ->
   nth 0 (nth 0 (Utils.rand_x [[7 # 10]] (1 # 2) true [[1 # 10]]) []) 0
   = b2q (Qlt_bool (1 # 2) (1 # 10))) /\
  (1 <= 7 # 10 -> (7 # 10) < 2 ->
   nth 0 (nth 0 (Utils.rand_x [[7 # 10]] (1 # 2) true [[1 # 10]]) []) 0 = 1).
Proof.
  apply (rand_x_truncates [[7 # 10]] [[1 # 10]] (1 # 2) 0 0).
  - constructor; [reflexivity | constructor].
  - simpl. lia.
  - simpl. lia.
Defined.

(** ** A base of at most one *)

Lemma lambda_loop_runs_on (d : nat) (o : BCA.oracle) (label : list Z)
  (m : nat) (max_lambda_ : Q) (use_sample : bool) (base : Q)
  (Hd : (0 < d)%nat) (Hwb : well_behaved d o)
  (Hnever : forall xs ls l,
      xs <> [] -> all_true (snd (BCA.get_loss o xs ls l)) = false)
  (Hchk : forall l, BCA.check_lambda o l = true)
  (inv : Q -> Prop)
  (Hinv : forall l, inv l -> l <= max_lambda_ /\ inv (Float.mul l base))
  (fuel : nat) :
  forall (lam : Q) (adv_x : batch) (r : nat) (w : world),
    rect d adv_x -> length label = length adv_x -> adv_x <> [] ->
    inv lam ->
    exists w',
      BCA.lambda_loop o label m max_lambda_ use_sample base fuel lam adv_x
        r w = (Ok None, w').
Proof.
  induction fuel as [|fuel IH]; intros lam adv_x r w Hr Hl Hne Hi.
  - exists w. reflexivity.
  - rewrite lambda_loop_S. destruct (Hinv lam Hi) as [Hle Hi'].
    apply Qle_bool_iff in Hle. rewrite Hle. apply Qle_bool_iff in Hle.
    unfold bind at 1. unfold ask at 1. cbn beta iota zeta.
    pose proof (wb_done d o Hwb adv_x label lam Hl) as Ldone.
    pose proof (Hnever adv_x label lam Hne) as Eall. rewrite Eall.
    set (nd := map negb (snd (BCA.get_loss o adv_x label lam))).
    assert (Lnd : length nd = length adv_x)
      by (unfold nd; rewrite length_map; exact Ldone).
    pose proof (not_all_true_active _ Eall) as Hact. fold nd in Hact.
    assert (Lsub : length (masked_select adv_x nd) = OSM.count_true nd)
      by (apply masked_select_length; exact Lnd).
    assert (Llab : length (masked_select label nd) = OSM.count_true nd)
      by (apply masked_select_length; lia).
    unfold bind at 1. unfold BCA._perturb.
    destruct (length (masked_select adv_x nd) <=? 0)%nat eqn:Ez;
      [apply Nat.leb_le in Ez; lia|].
    unfold bind at 1.
    destruct (steps_total d o Hd Hwb use_sample (masked_select label nd) lam
                m 0%nat (masked_select adv_x nd)
                (mkWorld (queries w ++ [QGetLoss adv_x lam]) (draws w)))
      as [sub [w1 [Es [Hrs Hls]]]].
    { apply masked_select_Forall. exact Hr. }
    { lia. }
    rewrite Es. unfold ret at 1. cbn [rows_of]. unfold bind at 1.
    destruct (masked_assign_total adv_x nd sub Lnd ltac:(lia)) as [adv1 Ea].
    rewrite Ea. cbn [of_option]. unfold ret at 1.
    destruct (masked_assign_keep _ _ _ _ [] Ea) as [L1 _].
    rewrite Hchk. cbn [negb].
    apply IH.
    + apply (masked_assign_Forall _ _ _ _ _ Ea Hr Hrs).
    + lia.
    + intro E. rewrite E in L1. destruct adv_x; [congruence | simpl in L1; lia].
    + exact Hi'.
Qed.

(** X9: [BCA.perturb] does not check that [base] exceeds one.  With
    [0 < base <= 1], a double [max_lambda_], an oracle that never reports
    every sample successful and a [check_lambda] that always agrees, the
    lambda loop never ends: whatever the fuel, the computation is still
    inside the loop when the fuel runs out. *)
Theorem bca_perturb_base_at_most_one (d : nat) (o : BCA.oracle) (x : batch)
  (label : list Z) (m : nat) (min_lambda_ max_lambda_ : Q)
  (use_sample : bool) (base : Q) (w : world) :
  (0 < d)%nat -> well_behaved d o -> rect d x -> length label = length x ->
  x <> [] ->
  (forall xs ls l, xs <> [] -> all_true (snd (BCA.get_loss o xs ls l)) = false) ->
  (forall l, BCA.check_lambda o l = true) ->
  0 < min_lambda_ -> min_lambda_ <= max_lambda_ ->
  Float.is_float max_lambda_ ->
  0 < base -> base <= 1 ->
  forall fuel, exists w',
    BCA.perturb o x label m min_lambda_ max_lambda_ use_sample base fuel w
    = (Ok None, w').
Proof.
  intros Hd Hwb Hr Hl Hne Hnever Hchk Hmin Hle Hfl Hb0 Hb1 fuel.
  set (lambda0 := if BCA.has_forward_g o then min_lambda_ else max_lambda_).
  assert (H0 : 0 <= lambda0 /\ lambda0 <= max_lambda_).
  { unfold lambda0. destruct (BCA.has_forward_g o); split; lra. }
  destruct (lambda_loop_runs_on d o label m max_lambda_ use_sample base Hd Hwb
              Hnever Hchk (fun l => 0 <= l /\ l <= max_lambda_)) 
    with (fuel := fuel) (lam := lambda0) (adv_x := x) (r := 0%nat) (w := w)
    as [w' E]; try assumption.
  { intros l [Hl0 Hl1]. split; [exact Hl1|].
    apply mul_le_float; assumption. }
  exists w'. unfold BCA.perturb.
  apply Qlt_bool_iff in Hmin. apply Qle_bool_iff in Hle. rewrite Hmin, Hle.
  cbn [andb negb]. fold lambda0. unfold bind. rewrite E. reflexivity.
Qed.

Lemma bca_perturb_base_at_most_one_witness :
  exists w',
    BCA.perturb Mock.eager [[0; 0; 0]] [1%Z] 1 1 100 false 1 7 world0
    = (Ok None, w').
Proof.
  refine (bca_perturb_base_at_most_one 3 Mock.eager [[0; 0; 0]] [1%Z] 1 1 100
            false 1 world0 _ _ _ _ _ _ _ _ _ _ _ _ 7%nat).
  - lia.
  - apply (well_behaved_map 3 (fun q => 1 - q) (fun _ => false) true
             (fun _ => true)).
  - repeat constructor.
  - reflexivity.
  - discriminate.
  - intros [|r xs] ls l Hne; [congruence | reflexivity].
  - reflexivity.
  - reflexivity.
  - vm_compute. discriminate.
  - vm_compute. reflexivity.
  - reflexivity.
  - vm_compute. discriminate.
Defined.

(** ** A product that rounding gives back *)


(** ** Ties, switches and the detector in the ensemble step *)

Lemma s_idx_first (n : nat) (scores : list Q) (j : nat) :
  let s := OSM.s_idx 3 n scores j in
  (s < 3)%nat /\
  forall s', (s' < s)%nat ->
    nth (s' * n + j) scores 0 < nth (s * n + j) scores 0.
Proof.
  cbv zeta. unfold OSM.s_idx, OSM.argmax.
  destruct (torch_max (OSM.scores_of 3 n scores j)) as [[v p]|] eqn:E;
    [|discriminate E].
  destruct (torch_max_spec _ _ _ E) as [Hp [Hv [_ Hfirst]]].
  assert (Hlen : length (OSM.scores_of 3 n scores j) = 3%nat)
    by (unfold OSM.scores_of; rewrite length_map, length_seq; reflexivity).
  rewrite Hlen in Hp. split; [exact Hp|]. intros s' Hs'.
  rewrite <- (nth_scores_of 3 n scores j s' ltac:(lia)).
  rewrite <- (nth_scores_of 3 n scores j p Hp).
  rewrite Hv. apply Hfirst. exact Hs'.
Qed.

(** X10: at a checkpoint a tie between strategies goes to the earlier one
    in the order L-inf, L2, L1: the kept candidate scores strictly better
    than every strategy before it, so a sample whose three candidates
    score the same keeps its L-inf candidate. *)
Theorem checkpoint_ties_to_earlier (c1 c2 c3 : batch) (n : nat)
  (scores : list Q) (j : nat) :
  length c1 = n -> length c2 = n -> length c3 = n -> (j < n)%nat ->
  let s := OSM.s_idx 3 n scores j in
  nth j (OSM.select_best 3 n (List.concat [c1; c2; c3]) scores) []
  = nth j (nth s [c1; c2; c3] []) [] /\
  (forall s', (s' < s)%nat ->
     nth (s' * n + j) scores 0 < nth (s * n + j) scores 0) /\
  (nth (0 * n + j) scores 0 == nth (1 * n + j) scores 0 ->
   nth (1 * n + j) scores 0 == nth (2 * n + j) scores 0 ->
   nth j (OSM.select_best 3 n (List.concat [c1; c2; c3]) scores) []
   = nth j c1 []).
Proof.
  intros H1 H2 H3 Hj. cbv zeta.
  destruct (s_idx_first n scores j) as [Hs Hfirst].
  assert (Hsel : nth j (OSM.select_best 3 n (List.concat [c1; c2; c3]) scores) []
                 = nth j (nth (OSM.s_idx 3 n scores j) [c1; c2; c3] []) []).
  { rewrite nth_select_best by exact Hj. apply nth_stacked; assumption. }
  split; [exact Hsel|]. split; [exact Hfirst|].
  intros E01 E12. rewrite Hsel.
  destruct (OSM.s_idx 3 n scores j) as [|[|[|s]]] eqn:Es; try lia.
  - reflexivity.
  - pose proof (Hfirst 0%nat ltac:(lia)) as Hlt. rewrite E01 in Hlt.
    exfalso. apply (Qlt_irrefl _ Hlt).
  - pose proof (Hfirst 1%nat ltac:(lia)) as Hlt. rewrite E12 in Hlt.
    exfalso. apply (Qlt_irrefl _ Hlt).
Qed.

Lemma checkpoint_ties_to_earlier_witness :
  nth 0 (OSM.select_best 3 1 (List.concat [[[1; 0]]; [[0; 1]]; [[1; 1]]])
           [5; 5; 5]) []
  = nth 0 (nth (OSM.s_idx 3 1 [5; 5; 5] 0) [[[1; 0]]; [[0; 1]]; [[1; 1]]] []) []
  /\
  (forall s', Nat.lt s' (OSM.s_idx 3 1 [5; 5; 5] 0) ->
     nth (s' * 1 + 0) [5; 5; 5] 0
     < nth (OSM.s_idx 3 1 [5; 5; 5] 0 * 1 + 0) [5; 5; 5] 0) /\
  (nth (0 * 1 + 0) [5; 5; 5] 0 == nth (1 * 1 + 0) [5; 5; 5] 0 ->
   nth (1 * 1 + 0) [5; 5; 5] 0 == nth (2 * 1 + 0) [5; 5; 5] 0 ->
   nth 0 (OSM.select_best 3 1 (List.concat [[[1; 0]]; [[0; 1]]; [[1; 1]]])
            [5; 5; 5]) []
   = nth 0 [[1; 0]] []).
Proof.
  apply (checkpoint_ties_to_earlier [[1; 0]] [[0; 1]] [[1; 1]] 1 [5; 5; 5] 0);
    first [reflexivity | lia].
Defined.

Lemma nth_blend (wc wd : Q -> Q) (s : list Q) (c d : batch) (i : nat) :
  (i < length s)%nat -> (i < length c)%nat -> (i < length d)%nat ->
  nth i (OSM.blend wc wd s c d) []
  = map (fun p => fst p * wc (nth i s 0) + snd p * wd (nth i s 0))
      (combine (nth i c []) (nth i d [])).
Proof.
  intros Hs Hc Hd. unfold OSM.blend.
  rewrite (nth_map2 _ s _ i 0 [] []);
    [|exact Hs | rewrite length_map2; lia].
  rewrite (nth_map2 (@combine Q Q) c d i [] [] []) by assumption.
  reflexivity.
Qed.

Lemma blend_row_on (x y : row) :
  length x = length y ->
  Forall2 Qeq (map (fun p => fst p * 0 + snd p * 1) (combine x y)) y /\
  Forall2 Qeq (map (fun p => fst p * 1 + snd p * 0) (combine x y)) x /\
  Forall2 Qeq (map (fun p => fst p * (1 - 0) + snd p * 0) (combine x y)) x /\
  Forall2 Qeq (map (fun p => fst p * (1 - 1) + snd p * 1) (combine x y)) y.
Proof.
  revert y. induction x as [|a x IH]; intros [|b y] Hl; simpl in Hl; try lia.
  - simpl. repeat split; constructor.
  - destruct (IH y ltac:(lia)) as [I1 [I2 [I3 I4]]]. simpl.
    repeat split; constructor; auto; ring.
Qed.

(** X11: without a step period [k], the gradient that drives a sample is
    one of the two (projected) gradients, never a mixture.  With
    [project_detector] a sample flagged as successful is driven by the
    detector gradient and any other by the classifier gradient; without
    it the roles are exchanged. *)
Theorem blend_switches (flags : list bool) (c d : batch) (i : nat) :
  (i < length flags)%nat -> (i < length c)%nat -> (i < length d)%nat ->
  length (nth i c []) = length (nth i d []) ->
  Forall2 Qeq
    (nth i (OSM.blend (fun s => 1 - s) (fun s => s) (map b2q flags) c d) [])
    (if nth i flags false then nth i d [] else nth i c []) /\
  Forall2 Qeq
    (nth i (OSM.blend (fun s => s) (fun s => 1 - s) (map b2q flags) c d) [])
    (if nth i flags false then nth i c [] else nth i d []).
Proof.
  intros Hf Hc Hd Hl.
  rewrite !nth_blend by (rewrite ?length_map; assumption).
  rewrite (nth_indep _ 0 (b2q false)) by (rewrite length_map; exact Hf).
  rewrite (map_nth b2q).
  destruct (blend_row_on _ _ Hl) as [I1 [I2 [I3 I4]]].
  destruct (nth i flags false); simpl b2q; split; assumption.
Qed.

Lemma blend_switches_witness :
  Forall2 Qeq
    (nth 1 (OSM.blend (fun s => 1 - s) (fun s => s) (map b2q [false; true])
              [[1; 2]; [3; 4]] [[5; 6]; [7; 8]]) [])
    (if nth 1 [false; true] false
     then nth 1 [[5; 6]; [7; 8]] [] else nth 1 [[1; 2]; [3; 4]] []) /\
  Forall2 Qeq
    (nth 1 (OSM.blend (fun s => s) (fun s => 1 - s) (map b2q [false; true])
              [[1; 2]; [3; 4]] [[5; 6]; [7; 8]]) [])
    (if nth 1 [false; true] false
     then nth 1 [[1; 2]; [3; 4]] [] else nth 1 [[5; 6]; [7; 8]] []).
Proof.
  apply (blend_switches [false; true] [[1; 2]; [3; 4]] [[5; 6]; [7; 8]] 1);
    first [reflexivity | simpl; lia].
Defined.

Lemma nth_and_map2 {A B : Type} (f : A -> bool) (h : B -> bool)
  (l : list A) (l' : list B) (i : nat) :
  nth i (map2 (fun y g => f y && h g) l l') false = true ->
  nth i (map f l) false = true.
Proof.
  revert l' i. induction l as [|a l IH]; intros [|b l'] [|i]; simpl;
    try discriminate.
  - intro H. apply andb_true_iff in H. exact (proj1 H).
  - apply IH.
Qed.

(** X12: taking the detector into account can only withdraw successes.
    A sample that [get_scores] reports as done when the detector is
    consulted is also reported as done by the oblivious attack, on the
    same perturbed batch. *)
Theorem get_scores_detector_narrows (lib : OSM.library) (a1 a2 : OSM.attack)
  (v : OSM.victim) (pertb_x : batch) (label : list Z) (w1 w2 : world)
  (s1 s2 : list Q) (d1 d2 : list bool) (w1' w2' : world) :
  OSM.oblivion a2 = true ->
  OSM.get_scores lib a1 v pertb_x label w1 = (Ok (s1, d1), w1') ->
  OSM.get_scores lib a2 v pertb_x label w2 = (Ok (s2, d2), w2') ->
  forall i, nth i d1 false = true -> nth i d2 false = true.
Proof.
  intros Hob E1 E2 i Hi. unfold OSM.get_scores, bind, ask, ret in E1, E2.
  rewrite Hob, andb_false_r in E2. inversion E2; subst. clear E2.
  destruct (OSM.own_forward_g v && negb (OSM.oblivion a1));
    inversion E1; subst; clear E1.
  - exact (nth_and_map2 _ _ _ _ _ Hi).
  - exact Hi.
Qed.

Lemma get_scores_detector_narrows_witness :
  exists s1 s2 w1 w2,
    OSM.get_scores Mock.library0 Mock.attack0 Mock.victim0 [[1; 0; 0]] [1%Z]
      world0 = (Ok (s1, [true]), w1) /\
    OSM.get_scores Mock.library0 Mock.oblivious0 Mock.victim0 [[1; 0; 0]]
      [1%Z] world0 = (Ok (s2, [true]), w2) /\
    nth 0 [true] false = true.
Proof.
  eexists. eexists. eexists. eexists.
  split; [vm_compute; reflexivity|]. split; [vm_compute; reflexivity|].
  refine (get_scores_detector_narrows Mock.library0 Mock.attack0
            Mock.oblivious0 Mock.victim0 [[1; 0; 0]] [1%Z] world0 world0
            _ _ [true] [true] _ _ _ _ _ 0%nat _);
    first [reflexivity | vm_compute; reflexivity].
Defined.

(** * Further properties of [tools/utils.py] *)

(** ** Moving a batch to the device *)

(** X13: [to_device] always returns three values, and the detector
    ensemble unpacks two after passing its device in the place of the
    labels.  The statement [x, y = utils.to_device(x.double(), y.long(),
    self.device)] therefore raises whatever the device is: an
    [AssertionError] for a device that is neither [None] nor a tensor, a
    [ValueError] from the unpacking otherwise. *)
Theorem amd_dla_to_device_raises (x y : batch)
  (self_device : UtilsPy.pyobj) :
  UtilsPy.amd_dla_to_device x y self_device
  = Raise (match self_device with
           | UtilsPy.ObjNone | UtilsPy.ObjTensor _ => ValueError
           | _ => AssertionError
           end).
Proof.
  destruct self_device; reflexivity.
Qed.

(** ** Smali names *)

Lemma replace_dot_injective (s t : list N) :
  ~ In UtilsPy.slash s -> ~ In UtilsPy.slash t ->
  UtilsPy.replace UtilsPy.dot UtilsPy.slash s
  = UtilsPy.replace UtilsPy.dot UtilsPy.slash t ->
  s = t.
Proof.
  revert t. induction s as [|c s IH]; intros [|d t] Hs Ht E;
    simpl in E; try discriminate; [reflexivity|].
  inversion E as [[Eh Et]]. f_equal.
  - assert (Hc : c <> UtilsPy.slash) by (intro; apply Hs; left; congruence).
    assert (Hd : d <> UtilsPy.slash) by (intro; apply Ht; left; congruence).
    destruct (N.eqb_spec c UtilsPy.dot), (N.eqb_spec d UtilsPy.dot);
      congruence.
  - apply IH; [intro; apply Hs; right; assumption
              |intro; apply Ht; right; assumption | exact Et].
Qed.

(** X14: on class names that contain no slash, as Java class names do,
    [java_class_name2smali_name] is injective: two names with the same
    smali name are the same name. *)
Theorem smali_name_injective (s t : list N) :
  ~ In UtilsPy.slash s -> ~ In UtilsPy.slash t ->
  UtilsPy.java_class_name2smali_name (UtilsPy.ObjStr s)
  = UtilsPy.java_class_name2smali_name (UtilsPy.ObjStr t) ->
  s = t.
Proof.
  intros Hs Ht E. unfold UtilsPy.java_class_name2smali_name in E.
  inversion E as [E']. apply app_inj_tail in E'. destruct E' as [E' _].
  exact (replace_dot_injective s t Hs Ht E').
Qed.

Lemma smali_name_injective_witness :
  ~ In UtilsPy.slash [97; 46; 98]%N /\
  UtilsPy.java_class_name2smali_name (UtilsPy.ObjStr [97; 46; 98]%N)
  = Ok (UtilsPy.ObjStr [76; 97; 47; 98; 59]%N) /\
  [97; 46; 98]%N = [97; 46; 98]%N.
Proof.
  assert (H : ~ In UtilsPy.slash [97; 46; 98]%N).
  { intros [H|[H|[H|[]]]]; discriminate H. }
  split; [exact H|]. split; [reflexivity|].
  exact (smali_name_injective [97; 46; 98]%N [97; 46; 98]%N H H eq_refl).
Defined.

(** ** Components without empty parts *)

Lemma split_not_nil (sep : N) (s : list N) : UtilsPy.split sep s <> [].
Proof.
  destruct s as [|c s]; simpl; [discriminate|].
  destruct (N.eqb c sep); [discriminate|].
  destruct (UtilsPy.split sep s); discriminate.
Qed.

Lemma split_no_sep (sep : N) (s : list N) :
  Forall (fun p => ~ In sep p) (UtilsPy.split sep s).
Proof.
  induction s as [|c s IH]; simpl.
  - constructor; [intros []|constructor].
  - destruct (N.eqb_spec c sep) as [E|E].
    + constructor; [intros []|exact IH].
    + destruct (UtilsPy.split sep s) as [|p ps].
      * constructor; [|constructor]. intros [H|[]]. congruence.
      * inversion IH as [|? ? Hp Hps]; subst. constructor; [|exact Hps].
        intros [H|H]; [congruence|exact (Hp H)].
Qed.

Lemma split_one (sep : N) (p : list N) :
  ~ In sep p -> UtilsPy.split sep p = [p].
Proof.
  induction p as [|c p IH]; intro H; simpl; [reflexivity|].
  destruct (N.eqb_spec c sep) as [E|E].
  - exfalso. apply H. left. exact E.
  - rewrite IH by (intro; apply H; right; assumption). reflexivity.
Qed.

Lemma split_app_sep (sep : N) (p rest : list N) :
  ~ In sep p ->
  UtilsPy.split sep (p ++ sep :: rest) = p :: UtilsPy.split sep rest.
Proof.
  induction p as [|c p IH]; intro H; simpl.
  - rewrite N.eqb_refl. reflexivity.
  - destruct (N.eqb_spec c sep) as [E|E].
    + exfalso. apply H. left. exact E.
    + rewrite IH by (intro; apply H; right; assumption). reflexivity.
Qed.

Lemma split_join (sep : N) (l : list (list N)) :
  l <> [] -> Forall (fun p => ~ In sep p) l ->
  UtilsPy.split sep (UtilsPy.join sep l) = l.
Proof.
  induction l as [|p l IH]; intros Hne Hl; [congruence|].
  inversion Hl as [|? ? Hp Hps]; subst.
  destruct l as [|q l].
  - simpl. apply split_one. exact Hp.
  - change (UtilsPy.join sep (p :: q :: l))
      with (p ++ sep :: UtilsPy.join sep (q :: l)).
    rewrite split_app_sep by exact Hp.
    rewrite IH; [reflexivity|discriminate|exact Hps].
Qed.

Lemma filter_nonempty_spec (l : list (list N)) :
  Forall (fun p => p <> []) (filter UtilsPy.nonempty l).
Proof.
  induction l as [|p l IH]; simpl; [constructor|].
  destruct p as [|c p]; simpl; [exact IH|].
  constructor; [discriminate|exact IH].
Qed.

Lemma filter_keeps_Forall {A : Type} (P : A -> Prop) (f : A -> bool)
  (l : list A) :
  Forall P l -> Forall P (filter f l).
Proof.
  induction 1 as [|a l Ha Hl IH]; simpl; [constructor|].
  destruct (f a); [constructor; assumption|exact IH].
Qed.

Lemma filter_nonempty_id (l : list (list N)) :
  Forall (fun p => p <> []) l -> filter UtilsPy.nonempty l = l.
Proof.
  induction 1 as [|p l Hp Hl IH]; simpl; [reflexivity|].
  destruct p as [|c p]; [congruence|]. simpl. rewrite IH. reflexivity.
Qed.

Lemma dedup_components (s : list N) :
  (UtilsPy.dedup s = [] \/
   Forall (fun p => p <> []) (UtilsPy.split UtilsPy.dot (UtilsPy.dedup s)))
  /\
  filter UtilsPy.nonempty (UtilsPy.split UtilsPy.dot (UtilsPy.dedup s))
  = filter UtilsPy.nonempty
      (UtilsPy.split UtilsPy.dot (UtilsPy.strip s)).
Proof.
  unfold UtilsPy.dedup.
  set (l := filter UtilsPy.nonempty
              (UtilsPy.split UtilsPy.dot (UtilsPy.strip s))).
  assert (Hne : Forall (fun p => p <> []) l) by apply filter_nonempty_spec.
  assert (Hnd : Forall (fun p => ~ In UtilsPy.dot p) l)
    by (apply filter_keeps_Forall, split_no_sep).
  destruct l as [|p l'] eqn:El.
  - simpl. split; [left; reflexivity|reflexivity].
  - rewrite split_join by (discriminate || exact Hnd).
    split; [right; exact Hne|]. apply filter_nonempty_id. exact Hne.
Qed.

(** X15: what [remove_duplicate] returns has no empty component: the
    result is empty or splits at the dots into non-empty parts, so it
    neither starts nor ends with a dot and has no two dots in a row; its
    parts are the non-empty parts of the stripped input, in order.  A list
    is treated entry by entry.  The function is not idempotent: white space
    that a removed leading dot leaves at the front is stripped only by a
    second pass. *)
Theorem remove_duplicate_no_empty_component :
  (forall s, exists r,
     UtilsPy.remove_duplicate (UtilsPy.ObjStr s) = Ok (UtilsPy.ObjStr r) /\
     (r = [] \/ Forall (fun p => p <> []) (UtilsPy.split UtilsPy.dot r)) /\
     filter UtilsPy.nonempty (UtilsPy.split UtilsPy.dot r)
     = filter UtilsPy.nonempty
         (UtilsPy.split UtilsPy.dot (UtilsPy.strip s))) /\
  (forall l, exists rs,
     UtilsPy.remove_duplicate (UtilsPy.ObjStrList l)
     = Ok (UtilsPy.ObjStrList rs) /\
     length rs = length l /\
     Forall (fun r => r = [] \/
                      Forall (fun p => p <> [])
                        (UtilsPy.split UtilsPy.dot r)) rs) /\
  (exists s, UtilsPy.dedup (UtilsPy.dedup s) <> UtilsPy.dedup s).
Proof.
  split; [|split].
  - intro s. exists (UtilsPy.dedup s). split; [reflexivity|].
    exact (dedup_components s).
  - intro l. exists (map UtilsPy.dedup l). split; [reflexivity|].
    split; [apply length_map|].
    induction l as [|s l IH]; simpl; constructor;
      [exact (proj1 (dedup_components s))|exact IH].
  - exists [46; 32; 97]%N. vm_compute. discriminate.
Qed.

(** ** Arguments read back from their lines *)

Lemma length_split (sep : N) (s : list N) :
  length (UtilsPy.split sep s) = S (count_occ N.eq_dec s sep).
Proof.
  induction s as [|c s IH]; simpl; [reflexivity|].
  destruct (N.eqb_spec c sep) as [E|E]; destruct (N.eq_dec c sep) as [E'|E'];
    try congruence.
  - simpl. rewrite IH. reflexivity.
  - destruct (UtilsPy.split sep s) as [|p ps] eqn:Es;
      [exfalso; exact (split_not_nil sep s Es)|].
    simpl in *. exact IH.
Qed.

Lemma dict_of_splits_spec (l : list (list N)) :
  forall d,
    (forallb (fun var => count_occ N.eq_dec var UtilsPy.colon =? 1)%nat l
     = true /\ exists d', UtilsPy.dict_of_splits d l = Ok d') \/
    (forallb (fun var => count_occ N.eq_dec var UtilsPy.colon =? 1)%nat l
     = false /\ UtilsPy.dict_of_splits d l = Raise ValueError).
Proof.
  induction l as [|var l IH]; intro d; simpl.
  - left. split; [reflexivity|]. exists d. reflexivity.
  - pose proof (length_split UtilsPy.colon var) as Hl.
    destruct (Nat.eqb_spec (count_occ N.eq_dec var UtilsPy.colon) 1)
      as [E|E].
    + rewrite E in Hl.
      destruct (UtilsPy.split UtilsPy.colon var) as [|k [|v [|z zs]]];
        simpl in Hl; try discriminate Hl.
      simpl. apply IH.
    + right. split; [reflexivity|].
      destruct (UtilsPy.split UtilsPy.colon var) as [|k [|v [|z zs]]];
        simpl in Hl; try reflexivity.
      exfalso. apply E. congruence.
Qed.

(** X16: [inverse_kwargs] accepts a list of lines exactly when every line
    holds one colon; a line without a colon, or one whose value holds a
    colon of its own, makes it raise [ValueError]. *)
Theorem inverse_kwargs_one_colon (l : list (list N)) :
  (forallb (fun var => count_occ N.eq_dec var UtilsPy.colon =? 1)%nat l
   = true /\
   exists d, UtilsPy.inverse_kwargs (UtilsPy.ObjStrList l) = Ok d) \/
  (forallb (fun var => count_occ N.eq_dec var UtilsPy.colon =? 1)%nat l
   = false /\
   UtilsPy.inverse_kwargs (UtilsPy.ObjStrList l) = Raise ValueError).
Proof.
  exact (dict_of_splits_spec l []).
Qed.

(** * The checkpoint inside the loop of [OrthogonalStepwiseMax.perturb] *)



